(** * dbutils: query helpers and the transaction runner

    A shallow embedding of [dbutils/wrappers.go].  The package is glue
    around [database/sql], [sqlx] and [multierr]: every function forwards
    to a library call and decorates the error.  The embedding therefore
    has three layers:

    - Go error values, with the two library constructions the package
      uses on them ([fmt.Errorf] with [%w], [multierr.Combine]);
    - the library interfaces the package is written against
      ([sqlx.ExecerContext], [sqlx.QueryerContext], [sqlx.ExtContext],
      [TxRunner]) as type classes over an abstract environment state, and
      the cursor objects [*sqlx.Rows] and [*sqlx.Row] as records;
    - the functions of the package, written in a state monad whose state
      is the environment together with the trace of library calls that
      the package has issued. *)

From Stdlib Require Import String Ascii List ZArith Lia.
From stdpp Require Import gmap strings list fin_maps.

Local Open Scope string_scope.

Set Warnings "-register-all,-clear-no-such-hyp".

(** ** Go error values *)

(** A non-nil value of Go's interface type [error].  The nil interface is
    [None] in [option error].
    - [errorString]: an error that wraps nothing ([errors.New], or any
      error a driver reports), identified by its message;
    - [wrapError]: [*fmt.wrapError], what [fmt.Errorf] builds for a format
      with one [%w]: the formatted message and the wrapped error;
    - [multiError]: [*multierr.multiError], an ordered list of causes. *)
Inductive error : Type :=
| errorString (s : string)
| wrapError (msg : string) (err : error)
| multiError (errors : list error).

(** The method [Error() string].  A [multiError] prints its causes
    separated by a semicolon and a space. *)
Fixpoint Error (e : error) : string :=
  match e with
  | errorString s => s
  | wrapError msg _ => msg
  | multiError errs => String.concat "; " (map Error errs)
  end.

(** [errors.Unwrap]. *)
Definition Unwrap (e : error) : option error :=
  match e with
  | wrapError _ err => Some err
  | _ => None
  end.

(** [fmt.Errorf(prefix + "%w", err)] for a non-nil [err]: the message is
    the prefix followed by [err.Error()], and [err] is kept as the
    wrapped error. *)
Definition Errorf_w (prefix : string) (err : error) : error :=
  wrapError (prefix +:+ Error err) err.

(** [multierr.Errors]: the causes of an error; nil has none, and an error
    that is not a [multiError] is its own single cause. *)
Definition Errors (err : option error) : list error :=
  match err with
  | None => []
  | Some (multiError errs) => errs
  | Some e => [e]
  end.

(** [multierr.Combine(errors...)] (go.uber.org/multierr, [fromSlice]):
    nil operands are skipped; no error left gives nil, one error left is
    returned as it is, and otherwise the result is a [multiError] of the
    operands in order, the causes of an operand that is itself a
    [multiError] being spliced in. *)
Definition Combine (errors : list (option error)) : option error :=
  match errors with
  | [] => None
  | [e] => e
  | _ =>
    match omap id errors with
    | [] => None
    | [e] => Some e
    | nonNil => Some (multiError (flat_map (fun e => Errors (Some e)) nonNil))
    end
  end.

(** ** Values, queries and result rows *)

(** [sql.IsolationLevel]. *)
Inductive IsolationLevel : Type :=
| LevelDefault
| LevelReadUncommitted
| LevelReadCommitted
| LevelWriteCommitted
| LevelRepeatableRead
| LevelSnapshot
| LevelSerializable
| LevelLinearizable.

(** [sql.TxOptions]. *)
Record TxOptions : Type := {
  Isolation : IsolationLevel;
  ReadOnly : bool
}.

(** The double quote character, for the message of [sqlErr]. *)
Definition dquote : string := String (ascii_of_nat 34) EmptyString.

Section Dbutils.

(** The Go types the package leaves open:
    - [value]: what an [interface{}] argument or column holds;
    - [result]: a non-nil [sql.Result];
    - [dest]: what the destination pointer of [Select] and [Get] refers to;
    - [Tx]: a transaction handle [*sqlx.Tx];
    - [DB]: the state of everything the library calls act on: the
      database, the connection behind the handle, and whatever a
      caller-supplied function can change.  The [context.Context] is only
      ever forwarded; how it influences a call is part of what the call
      does on [DB]. *)
Context {value result dest Tx DB : Type}.

(** How [fmt] prints one argument under [%+v]. *)
Class Formatter : Type := {
  fmtValue : value -> string
}.

(** [%+v] of a [[]interface{}]: the elements in brackets, separated by
    spaces.  A nil slice and an empty slice both print as [[]], and both
    are the empty variadic argument list, so [args] is a plain list. *)
Definition fmtArgs `{Formatter} (args : list value) : string :=
  "[" +:+ String.concat " " (map fmtValue args) +:+ "]".

(** A row map [map[string]interface{}]; [None] is the nil map. *)
Abbreviation rowmap := (gmap string value).

(** What one result row does when it is scanned: the column assignments
    [MapScan] makes in the destination map, in column order, and the
    error it returns. *)
Definition RowScan : Type := list (string * value) * option error.

(** [*sqlx.Rows], a cursor over a result set: the row [Next] last moved
    to, the rows still to come, what [Err] reports once the iteration has
    stopped, and what [Close] returns. *)
Record Rows : Type := {
  rows_current : option RowScan;
  rows_pending : list RowScan;
  rows_err : option error;
  rows_close : option error
}.

(** [*sqlx.Row], the single-row result of [QueryRowxContext]: the error
    the query left in it, and what scanning it does. *)
Record Row : Type := {
  row_err : option error;
  row_scan : RowScan
}.

(** [dest[column] = value] for every column, in order. *)
Definition assign (cols : list (string * value)) (m : rowmap) : rowmap :=
  fold_left (fun acc cv => <[cv.1 := cv.2]> acc) cols m.

(** The library calls the package issues, in the order it issues them. *)
Inductive Event : Type :=
| EvExecContext (query : string) (args : list value)
| EvSelectContext (query : string) (args : list value)
| EvGetContext (query : string) (args : list value)
| EvQueryxContext (query : string) (args : list value)
| EvQueryRowxContext (query : string) (args : list value)
| EvRowsNext
| EvRowsMapScan
| EvRowsErr
| EvRowsClose
| EvRowMapScan
| EvMakeMap (hint : option Z)
| EvBeginTxx (opts : TxOptions)
| EvTxFunc (tx : Tx)
| EvCommit (tx : Tx)
| EvRollback (tx : Tx).

(** ** The library interfaces *)

(** [sqlx.Named]: expands [:name] placeholders into positional form.  A
    function of the query text and the argument alone. *)
Class Binder : Type := {
  Named : string -> value -> string * list value * option error
}.

(** [sqlx.ExecerContext]. *)
Class ExecerContext : Type := {
  ExecContext : string -> list value -> DB -> (option result * option error) * DB
}.

(** [sqlx.QueryerContext], with the two package-level functions of sqlx
    that run on one: [sqlx.SelectContext] and [sqlx.GetContext] take the
    destination and leave in it whatever they scanned. *)
Class QueryerContext : Type := {
  QueryxContext : string -> list value -> DB -> (error + Rows) * DB;
  QueryRowxContext : string -> list value -> DB -> Row * DB;
  SelectContext : dest -> string -> list value -> DB -> (dest * option error) * DB;
  GetContext : dest -> string -> list value -> DB -> (dest * option error) * DB
}.

(** [sqlx.ExtContext]: both of the above and [Rebind], which rewrites the
    positional placeholders into the form the driver of the handle wants. *)
Class ExtContext : Type := {
  ext_execer :: ExecerContext;
  ext_queryer :: QueryerContext;
  Rebind : string -> string
}.

(** [TxRunner], and the two methods of the [*sqlx.Tx] it hands out. *)
Class TxRunner : Type := {
  BeginTxx : TxOptions -> DB -> (error + Tx) * DB;
  Commit : Tx -> DB -> option error * DB;
  Rollback : Tx -> DB -> option error * DB
}.

(** [TxFunc]: the caller's unit of work.  It acts on the environment; the
    trace records the calls of this package only. *)
Definition TxFunc : Type := Tx -> DB -> option error * DB.

(** ** The monad of the package *)

Record World : Type := {
  env : DB;
  trace : list Event
}.

Definition M (A : Type) : Type := World -> A * World.

Definition ret {A : Type} (a : A) : M A := fun w => (a, w).

Definition bind {A B : Type} (m : M A) (k : A -> M B) : M B :=
  fun w => let (a, w') := m w in k a w'.

(** Record a step that does not touch the environment. *)
Definition emit (e : Event) : M unit :=
  fun w => (tt, {| env := env w; trace := trace w ++ [e] |}).

(** Issue a library call: record it and let it act on the environment. *)
Definition call {A : Type} (e : Event) (op : DB -> A * DB) : M A :=
  fun w => let (a, d) := op (env w) in (a, {| env := d; trace := trace w ++ [e] |}).

(** ** The cursor methods

    A cursor carries its own answers.  What its methods do on the
    connection behind it is not modelled: they record the call and leave
    the environment as it is. *)

(** [rows.Next]: moves to the next row, if there is one. *)
Definition rows_Next (rows : Rows) : M (bool * Rows) :=
  fun w =>
    let w' := {| env := env w; trace := trace w ++ [EvRowsNext] |} in
    match rows_pending rows with
    | [] =>
      (false, {| rows_current := None; rows_pending := [];
                 rows_err := rows_err rows; rows_close := rows_close rows |}, w')
    | r :: rest =>
      (true, {| rows_current := Some r; rows_pending := rest;
                rows_err := rows_err rows; rows_close := rows_close rows |}, w')
    end.

(** [rows.MapScan(m)]: scans the current row into [m].  Without a current
    row the scan fails and leaves [m] alone. *)
Definition rows_MapScan (rows : Rows) (m : rowmap) : M (rowmap * option error) :=
  fun w =>
    let w' := {| env := env w; trace := trace w ++ [EvRowsMapScan] |} in
    match rows_current rows with
    | Some (cols, err) => (assign cols m, err, w')
    | None => (m, Some (errorString "sql: Scan called without calling Next"), w')
    end.

(** [rows.Err]. *)
Definition rows_Err (rows : Rows) : M (option error) :=
  fun w => (rows_err rows, {| env := env w; trace := trace w ++ [EvRowsErr] |}).

(** [rows.Close]. *)
Definition rows_Close (rows : Rows) : M (option error) :=
  fun w => (rows_close rows, {| env := env w; trace := trace w ++ [EvRowsClose] |}).

(** [row.MapScan(m)]. *)
Definition row_MapScan (row : Row) (m : rowmap) : M (rowmap * option error) :=
  fun w =>
    let '(cols, err) := row_scan row in
    (assign cols m, err, {| env := env w; trace := trace w ++ [EvRowMapScan] |}).

(** A slice of row maps; [None] is the nil slice.  [append] allocates on
    a nil slice. *)
Definition append (s : option (list rowmap)) (m : rowmap) : option (list rowmap) :=
  match s with
  | None => Some [m]
  | Some l => Some (l ++ [m])%list
  end.

End Dbutils.

Arguments RowScan : clear implicits.
Arguments Rows : clear implicits.
Arguments Row : clear implicits.
Arguments Event : clear implicits.
Arguments World : clear implicits.
Arguments M : clear implicits.
Arguments Formatter : clear implicits.
Arguments Binder : clear implicits.
Arguments ExecerContext : clear implicits.
Arguments QueryerContext : clear implicits.
Arguments ExtContext : clear implicits.
Arguments TxRunner : clear implicits.
Arguments TxFunc : clear implicits.

Notation "'let*' x ':=' m 'in' k" := (bind m (fun x => k))
  (at level 10, x pattern, m at level 100, k at level 200).

(** ** The package *)

Section Wrappers.

Context {value result dest Tx DB : Type}.
Context `{Formatter value} `{Binder value}.

Abbreviation rowmap := (gmap string value).
Abbreviation M' := (M value Tx DB).

(** [sqlErr], for the non-nil [err] every call site passes. *)
Definition sqlErr (err : error) (query : string) (args : list value) : error :=
  Errorf_w ("run query " +:+ dquote +:+ query +:+ dquote +:+ " with args "
            +:+ fmtArgs args +:+ ": ") err.

(** [namedQuery]. *)
Definition namedQuery (query : string) (arg : value)
  : string * list value * option error :=
  let '(nq, args, err) := Named query arg in
  match err with
  | Some e => ("", [], Some (sqlErr e query args))
  | None => (nq, args, None)
  end.

(** [Exec]. *)
Definition Exec `{ExecerContext value result DB} (query : string) (args : list value)
  : M' (option result * option error) :=
  let* (res, err) := call (EvExecContext query args) (ExecContext query args) in
  match err with
  | Some e => ret (res, Some (sqlErr e query args))
  | None => ret (res, None)
  end.

(** [Select]; the pair is the destination after the call and the
    returned error. *)
Definition Select `{QueryerContext value dest DB} (d : dest) (query : string)
    (args : list value) : M' (dest * option error) :=
  let* (d', err) := call (EvSelectContext query args) (SelectContext d query args) in
  match err with
  | Some e => ret (d', Some (sqlErr e query args))
  | None => ret (d', None)
  end.

(** [Get]. *)
Definition Get `{QueryerContext value dest DB} (d : dest) (query : string)
    (args : list value) : M' (dest * option error) :=
  let* (d', err) := call (EvGetContext query args) (GetContext d query args) in
  match err with
  | Some e => ret (d', Some (sqlErr e query args))
  | None => ret (d', None)
  end.

(** [NamedExec]. *)
Definition NamedExec `{ExtContext value result dest DB} (query : string) (arg : value)
  : M' (option result * option error) :=
  let '(nq, args, err) := namedQuery query arg in
  match err with
  | Some e => ret (None, Some e)
  | None => Exec (Rebind nq) args
  end.

(** [NamedSelect]. *)
Definition NamedSelect `{ExtContext value result dest DB} (d : dest) (query : string)
    (arg : value) : M' (dest * option error) :=
  let '(nq, args, err) := namedQuery query arg in
  match err with
  | Some e => ret (d, Some e)
  | None => Select d (Rebind nq) args
  end.

(** [NamedGet]. *)
Definition NamedGet `{ExtContext value result dest DB} (d : dest) (query : string)
    (arg : value) : M' (dest * option error) :=
  let '(nq, args, err) := namedQuery query arg in
  match err with
  | Some e => ret (d, Some e)
  | None => Get d (Rebind nq) args
  end.

(** The loop of [SelectMaps] together with the check of [rows.Err] that
    follows it: what the body of the function returns, and the cursor as
    it is then.  [numCols] is the local of that name.  One unit of fuel
    is spent per call of [rows.Next]; [None] means the fuel ran out. *)
Fixpoint scanRows (fuel : nat) (query : string) (args : list value)
    (rows : Rows value) (ret_ : option (list rowmap)) (numCols : Z)
  : M' (option (Rows value * (option (list rowmap) * option error))) :=
  match fuel with
  | O => ret None
  | S fuel' =>
    let* (more, rows) := rows_Next rows in
    if (more : bool) then
      let* m :=
        (if (numCols <? 0)%Z
         then let* _ := emit (EvMakeMap None) in ret (∅ : rowmap)
         else let* _ := emit (EvMakeMap (Some numCols)) in ret (∅ : rowmap)) in
      let* (m, err) := rows_MapScan rows m in
      match err with
      | Some e => ret (Some (rows, (None, Some (sqlErr e query args))))
      | None => scanRows fuel' query args rows (append ret_ m) (Z.of_nat (size m))
      end
    else
      let* err := rows_Err rows in
      match err with
      | Some e => ret (Some (rows, (None, Some (sqlErr e query args))))
      | None => ret (Some (rows, (ret_, None)))
      end
  end.

(** [SelectMaps].  The deferred function runs after the body has set the
    named results, and replaces [err].  The cursor holds finitely many
    rows, and the loop is given one call of [Next] more than that. *)
Definition SelectMaps `{QueryerContext value dest DB} (query : string) (args : list value)
  : M' (option (option (list rowmap) * option error)) :=
  let* r := call (EvQueryxContext query args) (QueryxContext query args) in
  match r with
  | inl e => ret (Some (None, Some (sqlErr e query args)))
  | inr rows =>
    let* body := scanRows (S (length (rows_pending rows))) query args rows (Some []) (-1) in
    match body with
    | None => ret None
    | Some (rows, (ret_, err)) =>
      let* cerr := rows_Close rows in
      ret (Some (ret_, Combine [err; cerr]))
    end
  end.

(** [NamedSelectMaps]. *)
Definition NamedSelectMaps `{ExtContext value result dest DB} (query : string) (arg : value)
  : M' (option (option (list rowmap) * option error)) :=
  let '(nq, args, err) := namedQuery query arg in
  match err with
  | Some e => ret (Some (None, Some e))
  | None => SelectMaps (Rebind nq) args
  end.

(** [GetMap]. *)
Definition GetMap `{QueryerContext value dest DB} (query : string) (args : list value)
  : M' (option rowmap * option error) :=
  let* row := call (EvQueryRowxContext query args) (QueryRowxContext query args) in
  match row_err row with
  | Some e => ret (None, Some (sqlErr e query args))
  | None =>
    let* (m, err) := row_MapScan row (∅ : rowmap) in
    match err with
    | Some e => ret (None, Some (sqlErr e query args))
    | None => ret (Some m, None)
    end
  end.

(** [NamedGetMap]. *)
Definition NamedGetMap `{ExtContext value result dest DB} (query : string) (arg : value)
  : M' (option rowmap * option error) :=
  let '(nq, args, err) := namedQuery query arg in
  match err with
  | Some e => ret (None, Some e)
  | None => GetMap (Rebind nq) args
  end.

(** The options [RunTx] opens its transaction with. *)
Definition opts : TxOptions :=
  {| Isolation := LevelReadCommitted; ReadOnly := false |}.

(** [RunTx].  [return f(tx)] sets the named result [err]; the deferred
    function then rolls back or commits, and replaces [err]. *)
Definition RunTx `{TxRunner Tx DB} (f : TxFunc Tx DB) : M' (option error) :=
  let* r := call (EvBeginTxx opts) (BeginTxx opts) in
  match r with
  | inl e => ret (Some (Errorf_w "begin transaction: " e))
  | inr tx =>
    let* err := call (EvTxFunc tx) (f tx) in
    match err with
    | Some e =>
      let* rerr := call (EvRollback tx) (Rollback tx) in
      ret (Combine [Some e; rerr])
    | None => call (EvCommit tx) (Commit tx)
    end
  end.

End Wrappers.

(** ** Reading a trace *)

Section Traces.

Context {value Tx : Type}.

Abbreviation rowmap := (gmap string value).

Definition is_commit (e : Event value Tx) : bool :=
  match e with EvCommit _ => true | _ => false end.

Definition is_rollback (e : Event value Tx) : bool :=
  match e with EvRollback _ => true | _ => false end.

Definition is_txfunc (e : Event value Tx) : bool :=
  match e with EvTxFunc _ => true | _ => false end.

Definition is_close (e : Event value Tx) : bool :=
  match e with EvRowsClose => true | _ => false end.

(** How often a kind of call occurs in a trace. *)
Definition count (p : Event value Tx -> bool) (t : list (Event value Tx)) : nat :=
  length (List.filter p t).

(** The size hints of the maps a trace allocates, in order: [None] for
    the literal [map[string]interface{}{}], [Some n] for [make(_, n)]. *)
Fixpoint hints (t : list (Event value Tx)) : list (option Z) :=
  match t with
  | [] => []
  | EvMakeMap h :: t' => h :: hints t'
  | _ :: t' => hints t'
  end.

(** The map a row scans into when it starts from the empty map. *)
Definition row_map (r : RowScan value) : rowmap := assign r.1 ∅.

(** The error of the first row whose scan fails. *)
Fixpoint first_scan_error (pending : list (RowScan value)) : option error :=
  match pending with
  | [] => None
  | (_, Some e) :: _ => Some e
  | (_, None) :: rest => first_scan_error rest
  end.

(** What stops [SelectMaps] short of returning its rows: the first failing
    scan, or else what [rows.Err] reports after the last row. *)
Definition primary_error (rows : Rows value) : option error :=
  match first_scan_error (rows_pending rows) with
  | Some e => Some e
  | None => rows_err rows
  end.

(** The calls the loop of [SelectMaps] makes on a cursor with the rows
    [pending] to come, entered with the local [numCols]. *)
Fixpoint loop_trace (pending : list (RowScan value)) (numCols : Z)
  : list (Event value Tx) :=
  match pending with
  | [] => [EvRowsNext; EvRowsErr]
  | (cols, err) :: rest =>
    EvRowsNext
      :: EvMakeMap (if (numCols <? 0)%Z then None else Some numCols)
      :: EvRowsMapScan
      :: match err with
         | Some _ => []
         | None => loop_trace rest (Z.of_nat (size (assign cols (∅ : rowmap))))
         end
  end.

(** What stops [GetMap] short of returning its row: the error of the
    query, or else the error of the scan. *)
Definition row_primary_error (row : Row value) : option error :=
  match row_err row with
  | Some e => Some e
  | None => (row_scan row).2
  end.

(** The size hints [hs] are those of a loop over the rows [pending]: one
    allocation per row, the first without a hint, and each later one with
    the number of entries of the map of the row before it. *)
Definition hints_follow_rows (pending : list (RowScan value))
    (hs : list (option Z)) : Prop :=
  length hs = length pending
  /\ (pending <> [] -> hs !! 0 = Some None)
  /\ (forall i r, pending !! i = Some r -> S i < length pending ->
        hs !! S i = Some (Some (Z.of_nat (size (row_map r))))).

(** The size hints [hs] are as C8 states them: one allocation per row,
    each with the column count of the first row. *)
Definition sized_to_first_row (pending : list (RowScan value))
    (hs : list (option Z)) : Prop :=
  length hs = length pending
  /\ match pending with
     | [] => True
     | first :: _ => Forall (fun h => h = Some (Z.of_nat (length first.1))) hs
     end.

End Traces.

(** ** A scripted driver

    A concrete instance of the interfaces, to run the package on: values
    are strings, a result is a number of affected rows, a destination is a
    list of records, a transaction handle is a number, and the state is a
    script that fixes the answer to every kind of call and counts the
    calls it has served. *)

Record Script : Type := {
  on_exec : option nat * option error;
  on_select : list string * option error;
  on_get : list string * option error;
  on_query : error + Rows string;
  on_queryrow : Row string;
  on_begin : error + nat;
  on_commit : option error;
  on_rollback : option error;
  served : nat
}.

Definition serve (s : Script) : Script :=
  {| on_exec := on_exec s; on_select := on_select s; on_get := on_get s;
     on_query := on_query s; on_queryrow := on_queryrow s;
     on_begin := on_begin s; on_commit := on_commit s;
     on_rollback := on_rollback s; served := S (served s) |}.

#[export] Instance script_formatter : Formatter string :=
  {| fmtValue := fun s => s |}.

(** The binder of the script accepts every query that has an argument. *)
#[export] Instance script_binder : Binder string :=
  {| Named := fun query arg =>
       if String.eqb arg ""
       then ("", [], Some (errorString "could not find name in the argument"))
       else (query, [arg], None) |}.

#[export] Instance script_execer : ExecerContext string nat Script :=
  {| ExecContext := fun _ _ s => (on_exec s, serve s) |}.

#[export] Instance script_queryer : QueryerContext string (list string) Script :=
  {| QueryxContext := fun _ _ s => (on_query s, serve s);
     QueryRowxContext := fun _ _ s => (on_queryrow s, serve s);
     SelectContext := fun _ _ _ s => (on_select s, serve s);
     GetContext := fun _ _ _ s => (on_get s, serve s) |}.

#[export] Instance script_ext : ExtContext string nat (list string) Script :=
  {| ext_execer := script_execer; ext_queryer := script_queryer;
     Rebind := fun q => q |}.

#[export] Instance script_txrunner : TxRunner nat Script :=
  {| BeginTxx := fun _ s => (on_begin s, serve s);
     Commit := fun _ s => (on_commit s, serve s);
     Rollback := fun _ s => (on_rollback s, serve s) |}.

(** A cursor that has [pending] to deliver. *)
Definition cursor (pending : list (RowScan string))
    (rerr cerr : option error) : Rows string :=
  {| rows_current := None; rows_pending := pending;
     rows_err := rerr; rows_close := cerr |}.

(** A script in which every call succeeds and every result is empty. *)
Definition quiet : Script :=
  {| on_exec := (Some 0, None); on_select := ([], None); on_get := ([], None);
     on_query := inr (cursor [] None None);
     on_queryrow := {| row_err := None; row_scan := ([], None) |};
     on_begin := inr 1; on_commit := None; on_rollback := None; served := 0 |}.

(** The world in which nothing has been called yet. *)
Definition fresh (s : Script) : World string nat Script :=
  {| env := s; trace := [] |}.

(** Two units of work: one that fails and one that succeeds. *)
Definition failing_work : TxFunc nat Script :=
  fun _ s => (Some (errorString "no such user"), serve s).

Definition successful_work : TxFunc nat Script :=
  fun _ s => (None, serve s).

(** Scripts that differ from [quiet] in one answer. *)
Definition with_begin (r : error + nat) (s : Script) : Script :=
  {| on_exec := on_exec s; on_select := on_select s; on_get := on_get s;
     on_query := on_query s; on_queryrow := on_queryrow s;
     on_begin := r; on_commit := on_commit s;
     on_rollback := on_rollback s; served := served s |}.

Definition with_commit (r : option error) (s : Script) : Script :=
  {| on_exec := on_exec s; on_select := on_select s; on_get := on_get s;
     on_query := on_query s; on_queryrow := on_queryrow s;
     on_begin := on_begin s; on_commit := r;
     on_rollback := on_rollback s; served := served s |}.

Definition with_rollback (r : option error) (s : Script) : Script :=
  {| on_exec := on_exec s; on_select := on_select s; on_get := on_get s;
     on_query := on_query s; on_queryrow := on_queryrow s;
     on_begin := on_begin s; on_commit := on_commit s;
     on_rollback := r; served := served s |}.

Definition with_query (r : error + Rows string) (s : Script) : Script :=
  {| on_exec := on_exec s; on_select := on_select s; on_get := on_get s;
     on_query := r; on_queryrow := on_queryrow s;
     on_begin := on_begin s; on_commit := on_commit s;
     on_rollback := on_rollback s; served := served s |}.

(** The database refuses to open a transaction. *)
Definition refused : Script :=
  with_begin (inl (errorString "connection refused")) quiet.

(** The connection is lost before the transaction can be rolled back. *)
Definition broken_rollback : Script :=
  with_rollback (Some (errorString "connection lost")) quiet.

(** The commit is rejected. *)
Definition broken_commit : Script :=
  with_commit (Some (errorString "serialization failure")) quiet.

(** The query succeeds and has no rows, but the cursor fails to close. *)
Definition close_fails : Script :=
  with_query (inr (cursor [] None (Some (errorString "close failed")))) quiet.

(** The two rows of a join whose two columns are both called [id]. *)
Definition two_ids : list (RowScan string) :=
  [ ([("id", "1"); ("id", "7")], None);
    ([("id", "2"); ("id", "8")], None) ].

Definition joined : Script :=
  with_query (inr (cursor two_ids None None)) quiet.

(** The only row fails to scan, and then the cursor fails to close. *)
Definition torn : Script :=
  with_query
    (inr (cursor [([], Some (errorString "bad column"))] None
            (Some (errorString "close failed"))))
    quiet.

(** A query of the example program. *)
Definition select_users : string := "SELECT * FROM test_users".

(** ** Reading a trace, continued *)

Section Calls.

Context {value Tx : Type}.

Definition is_next (e : Event value Tx) : bool :=
  match e with EvRowsNext => true | _ => false end.

Definition is_mapscan (e : Event value Tx) : bool :=
  match e with EvRowsMapScan => true | _ => false end.

Definition is_rows_err (e : Event value Tx) : bool :=
  match e with EvRowsErr => true | _ => false end.

Definition is_row_mapscan (e : Event value Tx) : bool :=
  match e with EvRowMapScan => true | _ => false end.

Definition is_get (e : Event value Tx) : bool :=
  match e with EvGetContext _ _ => true | _ => false end.

End Calls.

(** [errors.Is(err, target)], with the identity of an error value read as
    its structure: [target] is [err] itself, or is reached from it by
    unwrapping a [wrapError] or by picking a cause of a [multiError]. *)
Inductive Is : error -> error -> Prop :=
| Is_here (e : error) : Is e e
| Is_wrapped (msg : string) (e target : error) :
    Is e target -> Is (wrapError msg e) target
| Is_cause (errs : list error) (e target : error) :
    In e errs -> Is e target -> Is (multiError errs) target.

(** ** The example program *)

(** The struct [user], and its zero value [user{}]. *)
Record user : Type := {
  ID : Z;
  Login : string;
  Name : string
}.

Definition zero_user : user := {| ID := 0; Login := ""; Name := "" |}.

Definition newline : string := String (ascii_of_nat 10) EmptyString.

Definition tab : string := String (ascii_of_nat 9) EmptyString.

(** The two queries of [updateUserTx]; the second is a raw string that
    spans four lines, the last three indented by two tabs. *)
Definition select_user : string := "SELECT * FROM test_users WHERE login = $1".

Definition update_user : string :=
  "UPDATE test_users" +:+ newline
  +:+ tab +:+ tab +:+ "SET name = $1" +:+ newline
  +:+ tab +:+ tab +:+ "WHERE login = $2" +:+ newline
  +:+ tab +:+ tab +:+ "RETURNING *".

(** The variables of [updateUser] that its closure captures and assigns:
    the named results [u] and [err]. *)
Definition Captured : Type := user * option error.

Section Example.

Context {value result Tx DB : Type} `{Formatter value}.

(** How a Go string becomes an [interface{}] argument. *)
Context (str : string -> value).

(** [updateUserTx].  [u] is the named result, zero on entry; each call of
    [Get] is handed its address.  The [err] of the two [if] statements
    shadows the named result. *)
Definition updateUserTx `{ExtContext value result user DB} (login newName : string)
  : M value Tx DB (user * option error) :=
  let u := zero_user in
  let q := select_user in
  let* (u, err) := Get u q [str login] in
  match err with
  | Some e => ret (zero_user, Some e)
  | None =>
    let q := update_user in
    let* (u, err) := Get u q [str newName; str login] in
    match err with
    | Some e => ret (zero_user, Some e)
    | None => ret (u, None)
    end
  end.

(** A library call on the database, seen from inside [updateUser]: it
    leaves the captured variables alone. *)
Definition beside {A : Type} (op : DB -> A * DB)
  : DB * Captured -> A * (DB * Captured) :=
  fun s => let '(a, d) := op s.1 in (a, (d, s.2)).

(** The handle [dbh] as the [TxRunner] of [RunTx], on the state that
    includes the captured variables. *)
Definition captured_runner `{TxRunner Tx DB} : TxRunner Tx (DB * Captured) :=
  {| BeginTxx := fun o => beside (BeginTxx o);
     Commit := fun tx => beside (Commit tx);
     Rollback := fun tx => beside (Rollback tx) |}.

(** The closure [updateUser] passes to [RunTx]: it assigns the captured
    [u] and [err] and returns [err].  [asExt tx] is the transaction
    handle as the [sqlx.ExtContext] that [updateUserTx] takes.  Like every
    unit of work, the closure acts on the environment only. *)
Definition updateUser_work (asExt : Tx -> ExtContext value result user DB)
    (login newName : string) : TxFunc Tx (DB * Captured) :=
  fun tx s =>
    let '((u, err), w) :=
      updateUserTx (H0 := asExt tx) login newName {| env := s.1; trace := [] |} in
    (err, (env w, (u, err))).

(** [updateUser]: [err] is assigned once more, from what [RunTx] returns,
    and [u] is returned as the closure left it. *)
Definition updateUser `{TxRunner Tx DB} (asExt : Tx -> ExtContext value result user DB)
    (login newName : string) : M value Tx DB (user * option error) :=
  fun w =>
    let '(err, w') :=
      RunTx (H1 := captured_runner) (updateUser_work asExt login newName)
        {| env := (env w, (zero_user, None)); trace := trace w |} in
    (((env w').2.1, err), {| env := (env w').1; trace := trace w' |}).

(** [pgxLogger.Log].  [range] visits the entries of [data] in an order
    that Go leaves open; [Log_line] is the text handed to [log.Println]
    when the entries are visited in the order [order], and [Log_lines]
    relates a map to every text it can be logged as.  The context and the
    level are ignored by the method. *)
Definition Log_field (kv : string * value) : string :=
  " " +:+ kv.1 +:+ "=" +:+ fmtValue kv.2.

Definition Log_line (msg : string) (order : list (string * value)) : string :=
  fold_left (fun buffer kv => buffer +:+ Log_field kv) order msg.

Definition Log_lines (msg : string) (data : gmap string value) (line : string) : Prop :=
  exists order, Permutation order (map_to_list data) /\ line = Log_line msg order.

End Example.

(** ** A scripted transaction

    The answers a transaction gives to [updateUser]: whether it opens,
    what each [GetContext] scans into the destination and returns, in the
    order of the calls, and what [Commit] and [Rollback] return. *)
Record TxScript : Type := {
  tx_begin : error + nat;
  tx_gets : list (user * option error);
  tx_commit : option error;
  tx_rollback : option error
}.

Definition tx_next_get (d : user) (s : TxScript)
  : (user * option error) * TxScript :=
  match tx_gets s with
  | [] => ((d, Some (errorString "script exhausted")), s)
  | a :: rest =>
    (a, {| tx_begin := tx_begin s; tx_gets := rest;
           tx_commit := tx_commit s; tx_rollback := tx_rollback s |})
  end.

Definition tx_ext (tx : nat) : ExtContext string nat user TxScript :=
  {| ext_execer := {| ExecContext := fun _ _ s => ((None, None), s) |};
     ext_queryer :=
       {| QueryxContext := fun _ _ s => (inl (errorString "not scripted"), s);
          QueryRowxContext := fun _ _ s =>
            ({| row_err := Some (errorString "not scripted"); row_scan := ([], None) |}, s);
          SelectContext := fun d _ _ s => ((d, None), s);
          GetContext := fun d _ _ s => tx_next_get d s |};
     Rebind := fun q => q |}.

#[export] Instance tx_runner : TxRunner nat TxScript :=
  {| BeginTxx := fun _ s => (tx_begin s, s);
     Commit := fun _ s => (tx_commit s, s);
     Rollback := fun _ s => (tx_rollback s, s) |}.

Definition ivanov : user :=
  {| ID := 1; Login := "ivanov"; Name := "Ivanov Ivan Ivanovich" |}.

Definition sergeev : user :=
  {| ID := 1; Login := "ivanov"; Name := "Sergeev" |}.

(** The update goes through, but the commit is rejected. *)
Definition commit_rejected : TxScript :=
  {| tx_begin := inr 1;
     tx_gets := [(ivanov, None); (sergeev, None)];
     tx_commit := Some (errorString "serialization failure");
     tx_rollback := None |}.

(** There is no such user: the first query finds no row. *)
Definition no_such_user : TxScript :=
  {| tx_begin := inr 1;
     tx_gets := [(zero_user, Some (errorString "sql: no rows in result set"));
                 (sergeev, None)];
     tx_commit := None;
     tx_rollback := None |}.

(** Everything succeeds. *)
Definition all_well : TxScript :=
  {| tx_begin := inr 1;
     tx_gets := [(ivanov, None); (sergeev, None)];
     tx_commit := None;
     tx_rollback := None |}.

(** A cursor whose second row fails to scan, and two ways it could go on. *)
Definition second_row_fails (rest : list (RowScan string)) (rerr : option error)
  : Rows string :=
  cursor (([("id", "1")], None) :: ([("id", "2")], Some (errorString "bad column")) :: rest)
    rerr None.

(** ** Laws of the library operations *)

(** Combining two errors keeps the causes of both, in order. *)
Lemma Errors_Combine (a b : option error) :
  Errors (Combine [a; b]) = (Errors a ++ Errors b)%list.
Proof.
  destruct a as [e1|], b as [e2|]; cbn.
  - now rewrite app_nil_r.
  - now rewrite app_nil_r.
  - reflexivity.
  - reflexivity.
Qed.

Lemma Combine_nil_r (a : option error) : Combine [a; None] = a.
Proof. now destruct a. Qed.

Lemma Combine_nil_l (b : option error) : Combine [None; b] = b.
Proof. now destruct b. Qed.

(** Two errors combine into a [multiError]; in particular into an error. *)
Lemma Combine_both (e1 e2 : error) :
  Combine [Some e1; Some e2]
  = Some (multiError (Errors (Some e1) ++ Errors (Some e2))%list).
Proof. cbn. now rewrite app_nil_r. Qed.

Lemma Combine_is_nil (a b : option error) :
  Combine [a; b] = None <-> a = None /\ b = None.
Proof.
  destruct a as [e1|], b as [e2|]; cbn; split; intros Hc;
    try discriminate; try (destruct Hc; discriminate); auto.
Qed.

(** The message of a wrapped error ends in the message of its cause, and
    unwrapping gives the cause back. *)
Lemma Unwrap_Errorf_w (prefix : string) (e : error) :
  Unwrap (Errorf_w prefix e) = Some e
  /\ Error (Errorf_w prefix e) = prefix +:+ Error e.
Proof. split; reflexivity. Qed.

(** ** The loop of [SelectMaps] *)

Section Loop.

Context {value Tx DB : Type} `{Formatter value}.

Abbreviation rowmap := (gmap string value).
Abbreviation M' := (M value Tx DB).

(** With fuel for one call of [Next] more than there are rows, the loop
    runs to its end: it makes the calls of [loop_trace], leaves the
    environment alone, and returns the maps of the rows after the ones it
    was entered with, unless a scan or the iteration fails; then it
    returns nil and the failure, wrapped. *)
Lemma scanRows_spec (query : string) (args : list value) (rerr cerr : option error)
    (pending : list (RowScan value)) :
  forall (fuel : nat) (cur : option (RowScan value)) (acc : list rowmap) (numCols : Z)
         (w : World value Tx DB),
    length pending < fuel ->
    exists rows',
      rows_close rows' = cerr /\
      scanRows fuel query args
        {| rows_current := cur; rows_pending := pending;
           rows_err := rerr; rows_close := cerr |} (Some acc) numCols w
      = (Some (rows',
               match primary_error {| rows_current := cur; rows_pending := pending;
                                      rows_err := rerr; rows_close := cerr |} with
               | Some e => (None, Some (sqlErr e query args))
               | None => (Some (acc ++ map row_map pending)%list, None)
               end),
         {| env := env w; trace := (trace w ++ loop_trace pending numCols)%list |}).
Proof.
  induction pending as [|[cols serr] rest IH]; intros fuel cur acc numCols w Hfuel.
  - destruct fuel as [|fuel]; [lia|].
    eexists; split; [|cbn; unfold bind, rows_Next, rows_Err; cbn].
    2:{ unfold primary_error; cbn. rewrite <- app_assoc; cbn.
        destruct rerr; cbn; rewrite ?app_nil_r; reflexivity. }
    reflexivity.
  - destruct fuel as [|fuel]; [cbn in Hfuel; lia|].
    cbn in Hfuel.
    destruct serr as [e|].
    + eexists; split; [|cbn; unfold bind, rows_Next, rows_MapScan, emit, ret; cbn].
      2:{ unfold primary_error; cbn.
          destruct (numCols <? 0)%Z; cbn; rewrite <- !app_assoc; reflexivity. }
      reflexivity.
    + destruct (IH fuel (Some (cols, None)) (acc ++ [assign cols ∅])%list
                  (Z.of_nat (size (assign cols (∅ : rowmap))))
                  {| env := env w;
                     trace := (trace w ++ [EvRowsNext;
                                 EvMakeMap (if (numCols <? 0)%Z then None else Some numCols);
                                 EvRowsMapScan])%list |}
                  ltac:(lia)) as [rows' [Hclose Hrun]].
      exists rows'; split; [exact Hclose|].
      assert (Hstep :
        scanRows (S fuel) query args
          {| rows_current := cur; rows_pending := (cols, None) :: rest;
             rows_err := rerr; rows_close := cerr |} (Some acc) numCols w
        = scanRows fuel query args
            {| rows_current := Some (cols, None); rows_pending := rest;
               rows_err := rerr; rows_close := cerr |}
            (Some (acc ++ [assign cols ∅])%list)
            (Z.of_nat (size (assign cols (∅ : rowmap))))
            {| env := env w;
               trace := (trace w ++ [EvRowsNext;
                           EvMakeMap (if (numCols <? 0)%Z then None else Some numCols);
                           EvRowsMapScan])%list |}).
      { cbn [scanRows]. unfold bind, rows_Next, rows_MapScan, emit, ret. cbn.
        destruct (numCols <? 0)%Z; cbn; rewrite <- !app_assoc; reflexivity. }
      refine (eq_trans Hstep (eq_trans Hrun _)). unfold primary_error; cbn.
      rewrite <- !app_assoc; cbn.
      destruct (first_scan_error rest); [reflexivity|].
      destruct rerr; reflexivity.
Qed.

End Loop.

(** ** The transaction runner *)

Section Transaction.

Context {value Tx DB : Type} `{TxRunner Tx DB}.

Implicit Types (f : TxFunc Tx DB) (w : World value Tx DB) (tx : Tx) (e : error).

(** What [RunTx] does once the transaction is open, by the outcome of the
    unit of work. *)
Lemma RunTx_begun f w tx d1 :
  BeginTxx opts (env w) = (inr tx, d1) ->
  RunTx f w
  = match f tx d1 with
    | (Some e, d2) =>
      (Combine [Some e; (Rollback tx d2).1],
       {| env := (Rollback tx d2).2;
          trace := (trace w ++ [EvBeginTxx opts; EvTxFunc tx; EvRollback tx])%list |})
    | (None, d2) =>
      ((Commit tx d2).1,
       {| env := (Commit tx d2).2;
          trace := (trace w ++ [EvBeginTxx opts; EvTxFunc tx; EvCommit tx])%list |})
    end.
Proof.
  intros Hbegin. unfold RunTx, bind, call, ret. rewrite Hbegin. cbn.
  destruct (f tx d1) as [[e|] d2]; cbn.
  - destruct (Rollback tx d2) as [rerr d3]; cbn. now rewrite <- !app_assoc.
  - destruct (Commit tx d2) as [cerr d3]; cbn. now rewrite <- !app_assoc.
Qed.

Lemma RunTx_not_begun f w e d1 :
  BeginTxx opts (env w) = (inl e, d1) ->
  RunTx f w
  = (Some (Errorf_w "begin transaction: " e),
     {| env := d1; trace := (trace w ++ [EvBeginTxx opts])%list |}).
Proof.
  intros Hbegin. unfold RunTx, bind, call, ret. now rewrite Hbegin.
Qed.

(** C1.  When the transaction has been opened and the unit of work
    returns an error, [RunTx] calls [Rollback] on that transaction exactly
    once and never [Commit].  If the rollback fails too, [RunTx] returns
    a [multiError] whose causes are those of the error of the unit of
    work followed by those of the rollback error; if the rollback
    succeeds, it returns the error of the unit of work as it is. *)
Theorem RunTx_rolls_back_on_failure f w tx d1 e d2 :
  BeginTxx opts (env w) = (inr tx, d1) ->
  f tx d1 = (Some e, d2) ->
  exists t,
    RunTx f w
    = (Combine [Some e; (Rollback tx d2).1],
       {| env := (Rollback tx d2).2; trace := (trace w ++ t)%list |})
    /\ t = [EvBeginTxx opts; EvTxFunc tx; EvRollback tx]
    /\ count is_rollback t = 1
    /\ count is_commit t = 0
    /\ (forall r, (Rollback tx d2).1 = Some r ->
          (RunTx f w).1 = Some (multiError (Errors (Some e) ++ Errors (Some r))%list)
          /\ Errors (RunTx f w).1 = (Errors (Some e) ++ Errors (Some r))%list)
    /\ ((Rollback tx d2).1 = None -> (RunTx f w).1 = Some e).
Proof.
  intros Hbegin Hf.
  pose proof (RunTx_begun f w tx d1 Hbegin) as Hrun. rewrite Hf in Hrun.
  exists [EvBeginTxx opts; EvTxFunc tx; EvRollback tx].
  rewrite Hrun. cbn [fst].
  do 4 (split; [reflexivity|]). split.
  - intros r Hr. rewrite Hr. split; [apply Combine_both | apply Errors_Combine].
  - intros Hr. rewrite Hr. apply Combine_nil_r.
Qed.

(** C2.  When the transaction has been opened and the unit of work
    returns nil, [RunTx] calls [Commit] on that transaction exactly once
    and never [Rollback], and returns what [Commit] returns: the commit
    error if there is one, nil otherwise. *)
Theorem RunTx_commits_on_success f w tx d1 d2 :
  BeginTxx opts (env w) = (inr tx, d1) ->
  f tx d1 = (None, d2) ->
  exists t,
    RunTx f w
    = ((Commit tx d2).1, {| env := (Commit tx d2).2; trace := (trace w ++ t)%list |})
    /\ t = [EvBeginTxx opts; EvTxFunc tx; EvCommit tx]
    /\ count is_commit t = 1
    /\ count is_rollback t = 0.
Proof.
  intros Hbegin Hf.
  pose proof (RunTx_begun f w tx d1 Hbegin) as Hrun. rewrite Hf in Hrun.
  exists [EvBeginTxx opts; EvTxFunc tx; EvCommit tx].
  rewrite Hrun. repeat split.
Qed.

(** C3, as amended.  If opening the transaction succeeds, the calls of
    [RunTx] contain exactly one call that ends a transaction, it is the
    last call [RunTx] makes, and it is a [Commit] or a [Rollback] of the
    transaction that was opened.  If opening fails, [BeginTxx] is the only
    call: there is no transaction, and neither [Commit] nor [Rollback] is
    called. *)
Theorem RunTx_ends_transaction f w :
  exists t,
    trace (RunTx f w).2 = (trace w ++ t)%list
    /\ match (BeginTxx opts (env w)).1 with
       | inr tx =>
         count is_commit t + count is_rollback t = 1
         /\ (last t = Some (EvCommit tx) \/ last t = Some (EvRollback tx))
       | inl _ =>
         t = [EvBeginTxx opts]
         /\ count is_commit t + count is_rollback t = 0
       end.
Proof.
  destruct (BeginTxx opts (env w)) as [[e|tx] d1] eqn:Hbegin; cbn [fst].
  - rewrite (RunTx_not_begun f w e d1 Hbegin). cbn.
    exists [EvBeginTxx opts]. now repeat split.
  - rewrite (RunTx_begun f w tx d1 Hbegin).
    destruct (f tx d1) as [[e|] d2]; cbn.
    + exists [EvBeginTxx opts; EvTxFunc tx; EvRollback tx].
      repeat split. now right.
    + exists [EvBeginTxx opts; EvTxFunc tx; EvCommit tx].
      repeat split. now left.
Qed.

(** C4.  When opening the transaction fails, [RunTx] returns an error
    that wraps the error of [BeginTxx] under the message prefix
    [begin transaction: ]; [BeginTxx] is the only call it makes, so the
    unit of work does not run and nothing is committed or rolled back,
    and the environment is as [BeginTxx] left it. *)
Theorem RunTx_begin_failure f w e d1 :
  BeginTxx opts (env w) = (inl e, d1) ->
  exists err t,
    RunTx f w = (Some err, {| env := d1; trace := (trace w ++ t)%list |})
    /\ Unwrap err = Some e
    /\ Error err = "begin transaction: " +:+ Error e
    /\ t = [EvBeginTxx opts]
    /\ count is_txfunc t = 0
    /\ count is_commit t = 0
    /\ count is_rollback t = 0.
Proof.
  intros Hbegin. rewrite (RunTx_not_begun f w e d1 Hbegin).
  exists (Errorf_w "begin transaction: " e), [EvBeginTxx opts].
  now repeat split.
Qed.

End Transaction.

Lemma RunTx_rolls_back_on_failure_witness :
  BeginTxx opts (env (fresh broken_rollback)) = (inr 1, serve broken_rollback)
  /\ failing_work 1 (serve broken_rollback)
     = (Some (errorString "no such user"), serve (serve broken_rollback))
  /\ (RunTx failing_work (fresh broken_rollback)).1
     = Some (multiError [errorString "no such user"; errorString "connection lost"])
  /\ count is_rollback (trace (RunTx failing_work (fresh broken_rollback)).2) = 1.
Proof.
  split; [reflexivity|]. split; [reflexivity|].
  pose proof (RunTx_rolls_back_on_failure (value := string) failing_work
                (fresh broken_rollback) 1 (serve broken_rollback)
                (errorString "no such user") (serve (serve broken_rollback)))
    as Hthm.
  destruct (Hthm eq_refl eq_refl) as (t & Hrun & Ht & Hrb & _ & Hboth & _).
  split.
  - exact (proj1 (Hboth (errorString "connection lost") eq_refl)).
  - rewrite Hrun. cbn. exact Hrb.
Defined.

Lemma RunTx_commits_on_success_witness :
  BeginTxx opts (env (fresh broken_commit)) = (inr 1, serve broken_commit)
  /\ successful_work 1 (serve broken_commit) = (None, serve (serve broken_commit))
  /\ exists t,
       RunTx successful_work (fresh broken_commit)
       = (Some (errorString "serialization failure"),
          {| env := serve (serve (serve broken_commit)); trace := ([] ++ t)%list |})
       /\ count is_commit t = 1 /\ count is_rollback t = 0.
Proof.
  split; [reflexivity|]. split; [reflexivity|].
  pose proof (RunTx_commits_on_success (value := string) successful_work
                (fresh broken_commit) 1 (serve broken_commit)
                (serve (serve broken_commit))) as Hthm.
  destruct (Hthm eq_refl eq_refl) as (t & Hrun & Ht & Hc & Hr).
  exists t. split; [exact Hrun|]. split; [exact Hc | exact Hr].
Defined.

(** C3, as stated, fails when the transaction cannot be opened: [RunTx]
    then returns without a single [Commit] or [Rollback]. *)
Lemma RunTx_begin_failure_ends_nothing :
  let t := trace (RunTx (value := string) successful_work (fresh refused)).2 in
  t = [EvBeginTxx opts]
  /\ ~ (count is_commit t + count is_rollback t = 1).
Proof. split; [reflexivity | cbn; lia]. Qed.

Lemma RunTx_begin_failure_witness :
  BeginTxx opts (env (fresh refused))
  = (inl (errorString "connection refused"), serve refused)
  /\ exists err t,
       RunTx failing_work (fresh refused)
       = (Some err, {| env := serve refused; trace := ([] ++ t)%list |})
       /\ Error err = "begin transaction: connection refused"
       /\ t = [EvBeginTxx (value := string) opts].
Proof.
  split; [reflexivity|].
  pose proof (RunTx_begin_failure (value := string) failing_work (fresh refused)
                (errorString "connection refused") (serve refused)) as Hthm.
  destruct (Hthm eq_refl) as (err & t & Hrun & Hun & Hmsg & Ht & _).
  exists err, t. split; [exact Hrun|]. split; [exact Hmsg | exact Ht].
Defined.

(** ** The query helpers *)

Section QueryHelpers.

Context {value result dest Tx DB : Type}.
Context `{Formatter value} `{ExecerContext value result DB}
        `{QueryerContext value dest DB}.

Abbreviation rowmap := (gmap string value).

Implicit Types (w : World value Tx DB) (query : string) (args : list value).

(** The loop never closes the cursor. *)
Lemma loop_trace_no_close (pending : list (RowScan value)) (numCols : Z) :
  count is_close (loop_trace (Tx := Tx) pending numCols) = 0.
Proof.
  revert numCols. induction pending as [|[cols [e|]] rest IH]; intros numCols.
  - reflexivity.
  - reflexivity.
  - cbn. apply IH.
Qed.

(** [SelectMaps] when the query fails: the cursor does not exist. *)
Lemma SelectMaps_query_failed query args w e d :
  QueryxContext query args (env w) = (inl e, d) ->
  SelectMaps query args w
  = (Some (None, Some (sqlErr e query args)),
     {| env := d; trace := (trace w ++ [EvQueryxContext query args])%list |}).
Proof.
  intros Hq. unfold SelectMaps, bind, call, ret. now rewrite Hq.
Qed.

(** [SelectMaps] when the query succeeds: it always returns, having run
    the loop to its end and closed the cursor. *)
Lemma SelectMaps_query_ok query args w rows d :
  QueryxContext query args (env w) = (inr rows, d) ->
  SelectMaps query args w
  = (Some (match primary_error rows with
           | Some _ => None
           | None => Some (map row_map (rows_pending rows))
           end,
           Combine [(fun e => sqlErr e query args) <$> primary_error rows;
                    rows_close rows]),
     {| env := d;
        trace := (trace w ++ EvQueryxContext query args
                    :: loop_trace (rows_pending rows) (-1) ++ [EvRowsClose])%list |}).
Proof.
  intros Hq. unfold SelectMaps. unfold bind at 1. unfold call. rewrite Hq.
  destruct rows as [cur pending rerr cerr]. cbn [rows_pending].
  destruct (scanRows_spec query args rerr cerr pending (S (length pending)) cur []
              (-1)%Z {| env := d; trace := (trace w ++ [EvQueryxContext query args])%list |}
              ltac:(lia)) as [rows' [Hclose Hrun]].
  unfold bind. rewrite Hrun. cbn [env trace].
  destruct (primary_error _) as [e|]; cbn; unfold rows_Close, ret; cbn;
    rewrite Hclose, <- !app_assoc; reflexivity.
Qed.

(** C7.  After a successful query, [SelectMaps] returns, and the last
    call it has made is the one [Close] of the cursor, whatever the rows
    did.  The error it returns is [multierr.Combine] of the error of its
    body (the first failing scan or else the error of the iteration,
    wrapped by [sqlErr]) and the error of [Close]: its causes are those of
    the body's error followed by those of the close error, so it is nil
    only if both are. *)
Theorem SelectMaps_closes_cursor query args w rows d :
  QueryxContext query args (env w) = (inr rows, d) ->
  let body_err := (fun e => sqlErr e query args) <$> primary_error rows in
  exists ret_ err t,
    SelectMaps query args w
    = (Some (ret_, err), {| env := d; trace := (trace w ++ t ++ [EvRowsClose])%list |})
    /\ count is_close t = 0
    /\ err = Combine [body_err; rows_close rows]
    /\ Errors err = (Errors body_err ++ Errors (rows_close rows))%list
    /\ (err = None <-> body_err = None /\ rows_close rows = None).
Proof.
  intros Hq body_err.
  eexists _, _, (EvQueryxContext query args :: loop_trace (rows_pending rows) (-1)).
  split; [rewrite (SelectMaps_query_ok query args w rows d Hq); reflexivity|].
  split; [cbn; apply loop_trace_no_close|].
  split; [reflexivity|].
  split; [apply Errors_Combine | apply Combine_is_nil].
Qed.

(** C10.  [SelectMaps] always returns, and when the error it returns is
    nil the slice it returns is not.  After a successful query the error
    is nil exactly when no scan fails, the iteration reports no error and
    the cursor closes; the slice then holds the maps of the rows, so a
    result set without rows that ends and closes cleanly gives the empty
    slice and a nil error.  After a failed query the error is not nil. *)
Theorem SelectMaps_nil_error_non_nil_slice query args w :
  exists ret_ err w',
    SelectMaps query args w = (Some (ret_, err), w')
    /\ (err = None -> exists maps, ret_ = Some maps)
    /\ (forall rows d,
          QueryxContext query args (env w) = (inr rows, d) ->
          (err = None <-> primary_error rows = None /\ rows_close rows = None)
          /\ (err = None -> ret_ = Some (map row_map (rows_pending rows)))
          /\ (rows_pending rows = [] -> rows_err rows = None ->
              rows_close rows = None ->
              ret_ = Some [] /\ err = None))
    /\ (forall e d,
          QueryxContext query args (env w) = (inl e, d) -> err <> None).
Proof.
  destruct (QueryxContext query args (env w)) as [[e|rows] d] eqn:Hq.
  - rewrite (SelectMaps_query_failed query args w e d Hq).
    eexists _, _, _. split; [reflexivity|].
    split; [discriminate|]. split; [discriminate|]. discriminate.
  - rewrite (SelectMaps_query_ok query args w rows d Hq).
    eexists _, _, _. split; [reflexivity|].
    split; [|split; [|discriminate]].
    + intros Herr. apply Combine_is_nil in Herr. destruct Herr as [Hbody _].
      destruct (primary_error rows) as [e|]; [discriminate | eauto].
    + intros rows' d' [= <- <-].
      split; [|split].
      * rewrite Combine_is_nil.
        destruct (primary_error rows) as [e|]; cbn [fmap option_fmap option_map];
          split; intros [Ha Hb]; split; try discriminate; auto.
      * intros Herr. apply Combine_is_nil in Herr. destruct Herr as [Hbody _].
        now destruct (primary_error rows).
      * intros Hnil Hrerr Hclose. unfold primary_error.
        rewrite Hnil, Hrerr, Hclose. cbn. split; reflexivity.
Qed.

(** C5, as amended.  [Exec], [Select] and [Get] make one driver call and
    return its result as it is, with no error if the call succeeds and
    otherwise with its error wrapped by [sqlErr], that is with the query
    text and the argument list.  [GetMap] and [SelectMaps] wrap in the
    same way the first failure among the query, the scans and (in
    [SelectMaps]) the iteration, and return the scanned map or maps when
    none of these fails.  [SelectMaps] merges the error of closing the
    cursor, unwrapped, into the error it returns. *)
Theorem query_helpers_wrap_failures query args w :
  let wrap := fun e => sqlErr e query args in
  Exec query args w
  = (let '(res, err, d) := ExecContext query args (env w) in
     ((res, wrap <$> err),
      {| env := d; trace := (trace w ++ [EvExecContext query args])%list |}))
  /\ (forall dst : dest,
        Select dst query args w
        = (let '(dst', err, d) := SelectContext dst query args (env w) in
           ((dst', wrap <$> err),
            {| env := d; trace := (trace w ++ [EvSelectContext query args])%list |})))
  /\ (forall dst : dest,
        Get dst query args w
        = (let '(dst', err, d) := GetContext dst query args (env w) in
           ((dst', wrap <$> err),
            {| env := d; trace := (trace w ++ [EvGetContext query args])%list |})))
  /\ (GetMap query args w).1
     = (let row := (QueryRowxContext query args (env w)).1 in
        (match row_primary_error row with
         | Some _ => None
         | None => Some (row_map (row_scan row))
         end,
         wrap <$> row_primary_error row))
  /\ (SelectMaps query args w).1
     = match (QueryxContext query args (env w)).1 with
       | inl e => Some (None, Some (wrap e))
       | inr rows =>
         Some (match primary_error rows with
               | Some _ => None
               | None => Some (map row_map (rows_pending rows))
               end,
               Combine [wrap <$> primary_error rows; rows_close rows])
       end.
Proof.
  intros wrap. repeat apply conj.
  - unfold Exec, bind, call, ret.
    destruct (ExecContext query args (env w)) as [[res [e|]] d]; reflexivity.
  - intros dst. unfold Select, bind, call, ret.
    destruct (SelectContext dst query args (env w)) as [[dst' [e|]] d]; reflexivity.
  - intros dst. unfold Get, bind, call, ret.
    destruct (GetContext dst query args (env w)) as [[dst' [e|]] d]; reflexivity.
  - unfold GetMap, bind, call, ret, row_MapScan, row_primary_error, row_map.
    destruct (QueryRowxContext query args (env w)) as [[qerr [cols serr]] d]; cbn.
    destruct qerr as [e|]; [reflexivity|]. destruct serr as [e|]; reflexivity.
  - destruct (QueryxContext query args (env w)) as [[e|rows] d] eqn:Hq; cbn [fst].
    + now rewrite (SelectMaps_query_failed query args w e d Hq).
    + now rewrite (SelectMaps_query_ok query args w rows d Hq).
Qed.

(** The size hints of a list of calls. *)
Lemma hints_app (t1 t2 : list (Event value Tx)) :
  hints (t1 ++ t2) = (hints t1 ++ hints t2)%list.
Proof.
  induction t1 as [|ev t1 IH]; [reflexivity|].
  destruct ev; cbn; now rewrite ?IH.
Qed.

Lemma hints_loop_trace_length (pending : list (RowScan value)) (numCols : Z) :
  first_scan_error pending = None ->
  length (hints (loop_trace (Tx := Tx) pending numCols)) = length pending.
Proof.
  revert numCols. induction pending as [|[cols [e|]] rest IH]; intros numCols Hok.
  - reflexivity.
  - discriminate.
  - cbn. f_equal. now apply IH.
Qed.

Lemma hints_loop_trace_head (pending : list (RowScan value)) (numCols : Z) :
  pending <> [] ->
  hints (loop_trace (Tx := Tx) pending numCols) !! 0
  = Some (if (numCols <? 0)%Z then None else Some numCols).
Proof.
  destruct pending as [|[cols serr] rest]; [congruence | reflexivity].
Qed.

Lemma hints_loop_trace_next (pending : list (RowScan value)) :
  forall (numCols : Z) (i : nat) (r : RowScan value),
    first_scan_error pending = None ->
    pending !! i = Some r ->
    S i < length pending ->
    hints (loop_trace (Tx := Tx) pending numCols) !! S i
    = Some (Some (Z.of_nat (size (row_map r)))).
Proof.
  induction pending as [|[cols [e|]] rest IH]; intros numCols i r Hok Hr Hi.
  - discriminate.
  - discriminate.
  - cbn in Hok, Hi. destruct i as [|i]; cbn in Hr.
    + injection Hr as <-. cbn [loop_trace hints lookup list_lookup].
      change (hints (loop_trace (Tx := Tx) rest (Z.of_nat (size (assign cols ∅)))) !! 0
              = Some (Some (Z.of_nat (size (row_map (cols, None)))))).
      rewrite hints_loop_trace_head by (destruct rest; [cbn in Hi; lia | congruence]).
      unfold row_map; cbn.
      destruct (Z.ltb_spec (Z.of_nat (size (assign cols (∅ : rowmap)))) 0); [lia | reflexivity].
    + cbn [loop_trace hints].
      change (hints (loop_trace (Tx := Tx) rest (Z.of_nat (size (assign cols ∅)))) !! S i
              = Some (Some (Z.of_nat (size (row_map r))))).
      apply IH; [exact Hok | exact Hr | lia].
Qed.

(** On rows whose scans succeed, the loop entered with [numCols = -1]
    allocates as [hints_follow_rows] says. *)
Lemma loop_hints_follow_rows (pending : list (RowScan value)) :
  first_scan_error pending = None ->
  hints_follow_rows pending (hints (loop_trace (Tx := Tx) pending (-1))).
Proof.
  intros Hok. split; [now apply hints_loop_trace_length|]. split.
  - intros Hne. now rewrite hints_loop_trace_head.
  - intros i r Hr Hi. now apply hints_loop_trace_next.
Qed.

(** A scanned map has one entry per distinct column name. *)
Lemma dom_assign (cols : list (string * value)) (m : rowmap) :
  dom (assign cols m) = dom m ∪ list_to_set cols.*1.
Proof.
  revert m. induction cols as [|[c v] cols IH]; intros m; cbn.
  - set_solver.
  - unfold assign in IH. rewrite IH, dom_insert_L. set_solver.
Qed.

Lemma size_row_map (r : RowScan value) :
  size (row_map r) = length (remove_dups r.1.*1).
Proof.
  unfold row_map. rewrite <- size_dom, dom_assign, dom_empty_L, (left_id_L ∅ (∪)).
  rewrite <- (size_list_to_set (C := gset string) (remove_dups r.1.*1))
    by apply NoDup_remove_dups.
  f_equal. apply set_eq. intros x.
  rewrite !elem_of_list_to_set, elem_of_remove_dups. reflexivity.
Qed.

End QueryHelpers.

(** ** The named-parameter variants *)

Section NamedHelpers.

Context {value result dest Tx DB : Type}.
Context `{Formatter value} `{Binder value} `{ExtContext value result dest DB}.

Abbreviation rowmap := (gmap string value).

Implicit Types (w : World value Tx DB) (query : string) (args : list value)
  (arg : value).

(** [namedQuery] in terms of [sqlx.Named]. *)
Lemma namedQuery_bound query arg nq args :
  Named query arg = (nq, args, None) ->
  namedQuery query arg = (nq, args, None).
Proof. intros Hn. unfold namedQuery. now rewrite Hn. Qed.

Lemma namedQuery_unbound query arg nq args e :
  Named query arg = (nq, args, Some e) ->
  namedQuery query arg = ("", [], Some (sqlErr e query args)).
Proof. intros Hn. unfold namedQuery. now rewrite Hn. Qed.

(** C6.  Each named variant first expands the query with [sqlx.Named].
    If that succeeds, the variant is the positional helper of the same
    kind run on the rebound positional query and the positional
    arguments.  If it fails, the variant returns the error of the
    expansion wrapped by [sqlErr], together with a nil result or the
    untouched destination, and leaves the world as it was: no call
    reaches the driver. *)
Theorem named_variants_expand_then_delegate query arg w :
  match Named query arg with
  | (nq, args, None) =>
    NamedExec query arg w = Exec (Rebind nq) args w
    /\ (forall dst : dest, NamedSelect dst query arg w = Select dst (Rebind nq) args w)
    /\ (forall dst : dest, NamedGet dst query arg w = Get dst (Rebind nq) args w)
    /\ NamedSelectMaps query arg w = SelectMaps (Rebind nq) args w
    /\ NamedGetMap query arg w = GetMap (Rebind nq) args w
  | (_, args, Some e) =>
    let err := Some (sqlErr e query args) in
    NamedExec query arg w = ((None, err), w)
    /\ (forall dst : dest, NamedSelect dst query arg w = ((dst, err), w))
    /\ (forall dst : dest, NamedGet dst query arg w = ((dst, err), w))
    /\ NamedSelectMaps query arg w = (Some (None, err), w)
    /\ NamedGetMap query arg w = ((None, err), w)
  end.
Proof.
  destruct (Named query arg) as [[nq args] [e|]] eqn:Hn.
  - unfold NamedExec, NamedSelect, NamedGet, NamedSelectMaps, NamedGetMap.
    rewrite (namedQuery_unbound query arg nq args e Hn).
    repeat split.
  - unfold NamedExec, NamedSelect, NamedGet, NamedSelectMaps, NamedGetMap.
    rewrite (namedQuery_bound query arg nq args Hn).
    repeat split.
Qed.

(** C8, as amended.  After a successful query whose rows all scan,
    [SelectMaps] allocates one map per row: the first without a size
    hint, each later one with the number of entries of the map of the row
    before it as its hint.  A map has one entry per distinct column name,
    so when every row has the column names of the first row, the hint of
    every later map is the number of distinct column names of the first
    row.  If the iteration reports no error either, the maps are returned
    in the order of the rows.  [NamedSelectMaps] does the same on the
    query and arguments its expansion gives. *)
Theorem SelectMaps_one_map_per_row query args w rows d :
  QueryxContext query args (env w) = (inr rows, d) ->
  first_scan_error (rows_pending rows) = None ->
  exists ret_ err t,
    SelectMaps query args w
    = (Some (ret_, err), {| env := d; trace := (trace w ++ t)%list |})
    /\ hints_follow_rows (rows_pending rows) (hints t)
    /\ (forall r, r ∈ rows_pending rows ->
          size (row_map r) = length (remove_dups r.1.*1))
    /\ (forall first,
          head (rows_pending rows) = Some first ->
          (forall r, r ∈ rows_pending rows -> r.1.*1 = first.1.*1) ->
          forall i, 0 < i < length (rows_pending rows) ->
            hints t !! i = Some (Some (Z.of_nat (length (remove_dups first.1.*1)))))
    /\ (rows_err rows = None -> ret_ = Some (map row_map (rows_pending rows)))
    /\ (forall query0 arg nq,
          Named query0 arg = (nq, args, None) ->
          Rebind nq = query ->
          NamedSelectMaps query0 arg w = SelectMaps query args w).
Proof.
  intros Hq Hok.
  assert (Hhints :
    hints (EvQueryxContext (Tx := Tx) query args
             :: loop_trace (rows_pending rows) (-1) ++ [EvRowsClose])
    = hints (loop_trace (Tx := Tx) (rows_pending rows) (-1))).
  { cbn [hints]. rewrite hints_app. cbn. apply app_nil_r. }
  pose proof (loop_hints_follow_rows (Tx := Tx) (rows_pending rows) Hok) as Hfollow.
  eexists _, _, _.
  split; [exact (SelectMaps_query_ok query args w rows d Hq)|].
  rewrite Hhints.
  split; [exact Hfollow|].
  split; [intros r _; apply size_row_map|].
  split; [|split].
  - intros first Hfirst Hsame i [Hpos Hlt].
    destruct i as [|i]; [lia|].
    destruct (lookup_lt_is_Some_2 (rows_pending rows) i ltac:(lia)) as [r Hr].
    destruct Hfollow as (_ & _ & Hnext).
    rewrite (Hnext i r Hr Hlt), size_row_map.
    rewrite (Hsame r) by (apply list_elem_of_lookup; eauto).
    reflexivity.
  - intros Hrerr. unfold primary_error. now rewrite Hok, Hrerr.
  - intros query0 arg nq Hn <-. unfold NamedSelectMaps.
    now rewrite (namedQuery_bound query0 arg nq args Hn).
Qed.

End NamedHelpers.

(** C5, as stated, fails for [SelectMaps]: the query succeeds and has no
    rows, closing the cursor fails, and [SelectMaps] returns the close
    error as it is.  So a helper returns an error although the query
    succeeded, and the error of the one call that failed is not wrapped
    with the query text and the arguments. *)
Lemma SelectMaps_close_error_not_wrapped :
  (QueryxContext select_users [] (env (fresh close_fails))).1
  = inr (cursor [] None (Some (errorString "close failed")))
  /\ (SelectMaps select_users [] (fresh close_fails)).1
     = Some (Some [], Some (errorString "close failed"))
  /\ ~ (exists e, errorString "close failed" = sqlErr e select_users []).
Proof.
  split; [reflexivity|]. split; [reflexivity|].
  intros [e He]. discriminate He.
Qed.

Lemma SelectMaps_closes_cursor_witness :
  QueryxContext select_users [] (env (fresh torn))
  = (inr (cursor [([], Some (errorString "bad column"))] None
            (Some (errorString "close failed"))), serve torn)
  /\ exists ret_ t,
       SelectMaps select_users [] (fresh torn)
       = (Some (ret_,
                Some (multiError
                        [sqlErr (errorString "bad column") select_users [];
                         errorString "close failed"])),
          {| env := serve torn; trace := ([] ++ t ++ [EvRowsClose])%list |})
       /\ count is_close t = 0.
Proof.
  split; [reflexivity|].
  pose proof (SelectMaps_closes_cursor (dest := list string) select_users []
                (fresh torn)
                (cursor [([], Some (errorString "bad column"))] None
                   (Some (errorString "close failed")))
                (serve torn)) as Hthm.
  destruct (Hthm eq_refl) as (ret_ & err & t & Hrun & Hclose & Herr & _).
  exists ret_, t. split; [|exact Hclose].
  rewrite Hrun, Herr. reflexivity.
Defined.

Lemma SelectMaps_nil_error_non_nil_slice_witness :
  (QueryxContext select_users [] (env (fresh quiet))).1 = inr (cursor [] None None)
  /\ exists w', SelectMaps select_users [] (fresh quiet) = (Some (Some [], None), w').
Proof.
  split; [reflexivity|].
  destruct (SelectMaps_nil_error_non_nil_slice (dest := list string) select_users []
              (fresh quiet)) as (ret_ & err & w' & Hrun & _ & Hrows & _).
  destruct (Hrows (cursor [] None None) (serve quiet) eq_refl) as (_ & _ & Hempty).
  destruct (Hempty eq_refl eq_refl eq_refl) as [-> ->].
  exists w'. exact Hrun.
Defined.

(** C8, as stated, fails on the rows of a join with two columns of the
    same name: the first map is allocated without a hint, and the second
    with hint 1, the number of entries of the first map, while the first
    row has two columns. *)
Lemma SelectMaps_hints_not_column_count :
  let t := trace (SelectMaps select_users [] (fresh joined)).2 in
  hints t = [None; Some 1%Z]
  /\ ~ sized_to_first_row two_ids (hints t).
Proof.
  assert (Hh : hints (trace (SelectMaps select_users [] (fresh joined)).2)
               = [None; Some 1%Z]) by (vm_compute; reflexivity).
  cbv zeta. rewrite Hh. split; [reflexivity|].
  intros [_ Hall]. cbn in Hall. inversion Hall; discriminate.
Qed.

Lemma SelectMaps_one_map_per_row_witness :
  QueryxContext select_users [] (env (fresh joined))
  = (inr (cursor two_ids None None), serve joined)
  /\ first_scan_error two_ids = None
  /\ exists ret_ err t,
       SelectMaps select_users [] (fresh joined)
       = (Some (ret_, err), {| env := serve joined; trace := ([] ++ t)%list |})
       /\ hints_follow_rows two_ids (hints t)
       /\ ret_ = Some (map row_map two_ids).
Proof.
  split; [reflexivity|]. split; [reflexivity|].
  pose proof (SelectMaps_one_map_per_row (result := nat) select_users []
                (fresh joined) (cursor two_ids None None) (serve joined)) as Hthm.
  destruct (Hthm eq_refl eq_refl) as (ret_ & err & t & Hrun & Hfollow & _ & _ & Hret & _).
  exists ret_, err, t. split; [exact Hrun|]. split; [exact Hfollow|].
  exact (Hret eq_refl).
Defined.

(** ** More on the transaction runner *)

Section TransactionOutcome.

Context {value Tx DB : Type} `{TxRunner Tx DB}.

Implicit Types (f : TxFunc Tx DB) (w : World value Tx DB) (tx : Tx) (e : error).

(** X1.  [RunTx] returns nil exactly when the transaction was opened,
    the unit of work returned nil and the commit returned nil: a failure
    of any of the three, and equally a failure of the rollback, always
    surfaces as an error. *)
Theorem RunTx_nil_iff_committed f w :
  (RunTx f w).1 = None
  <-> exists tx d1 d2,
        BeginTxx opts (env w) = (inr tx, d1)
        /\ f tx d1 = (None, d2)
        /\ (Commit tx d2).1 = None.
Proof.
  destruct (BeginTxx opts (env w)) as [[e|tx] d1] eqn:Hbegin.
  - rewrite (RunTx_not_begun f w e d1 Hbegin). cbn. split; [discriminate|].
    intros (tx & d1' & d2 & Hb & _). discriminate Hb.
  - rewrite (RunTx_begun f w tx d1 Hbegin).
    destruct (f tx d1) as [[e|] d2] eqn:Hf; cbn [fst].
    + split.
      * intros Hnil. apply Combine_is_nil in Hnil. destruct Hnil; discriminate.
      * intros (tx' & d1' & d2' & Hb & Hf' & _).
        injection Hb as <- <-. rewrite Hf in Hf'. discriminate Hf'.
    + split.
      * intros Hnil. now exists tx, d1, d2.
      * intros (tx' & d1' & d2' & Hb & Hf' & Hc).
        injection Hb as <- <-. rewrite Hf in Hf'. injection Hf' as <-. exact Hc.
Qed.

(** X2.  The first call of [RunTx] is always [BeginTxx], with isolation
    level read committed and not read-only.  The unit of work is invoked
    once, right after it, on the transaction that was opened, and one
    more call follows; when opening fails the unit of work is not invoked
    and no call follows. *)
Theorem RunTx_runs_work_once f w :
  exists t,
    trace (RunTx f w).2 = (trace w ++ t)%list
    /\ t !! 0 = Some (EvBeginTxx {| Isolation := LevelReadCommitted; ReadOnly := false |})
    /\ match (BeginTxx opts (env w)).1 with
       | inr tx => t !! 1 = Some (EvTxFunc tx) /\ count is_txfunc t = 1 /\ length t = 3
       | inl _ => count is_txfunc t = 0 /\ length t = 1
       end.
Proof.
  destruct (BeginTxx opts (env w)) as [[e|tx] d1] eqn:Hbegin; cbn [fst].
  - rewrite (RunTx_not_begun f w e d1 Hbegin). cbn.
    exists [EvBeginTxx opts]. now repeat split.
  - rewrite (RunTx_begun f w tx d1 Hbegin).
    destruct (f tx d1) as [[e|] d2]; cbn.
    + exists [EvBeginTxx opts; EvTxFunc tx; EvRollback tx]. now repeat split.
    + exists [EvBeginTxx opts; EvTxFunc tx; EvCommit tx]. now repeat split.
Qed.

End TransactionOutcome.

(** ** More on [SelectMaps] and [GetMap] *)

Section Cursors.

Context {value dest Tx DB : Type}.
Context `{Formatter value} `{QueryerContext value dest DB}.

Abbreviation rowmap := (gmap string value).

Implicit Types (w : World value Tx DB) (query : string) (args : list value).

(** X3.  After a successful query [SelectMaps] returns all rows or none:
    the slice is nil exactly when a scan or the iteration failed, however
    many rows had been scanned by then, and otherwise it holds one map
    per row.  Rows and a non-nil error are returned together exactly when
    closing the cursor is the only thing that failed. *)
Theorem SelectMaps_all_or_nothing query args w rows d :
  QueryxContext query args (env w) = (inr rows, d) ->
  exists ret_ err,
    (SelectMaps query args w).1 = Some (ret_, err)
    /\ (ret_ = None <-> primary_error rows <> None)
    /\ (primary_error rows = None -> ret_ = Some (map row_map (rows_pending rows)))
    /\ (ret_ <> None /\ err <> None
        <-> primary_error rows = None /\ rows_close rows <> None).
Proof.
  intros Hq. rewrite (SelectMaps_query_ok query args w rows d Hq). cbn [fst].
  eexists _, _. split; [reflexivity|].
  destruct (primary_error rows) as [e|]; cbn [fmap option_fmap option_map].
  - split; [split; [discriminate | reflexivity]|].
    split; [discriminate|].
    split; [intros [Hret _]; now destruct Hret | intros [Hp _]; discriminate Hp].
  - rewrite Combine_nil_l.
    split; [split; [discriminate | intros Hne; now destruct Hne]|].
    split; [reflexivity|].
    split; [intros [_ Herr]; now split | intros [_ Hc]; split; [discriminate | exact Hc]].
Qed.

(** The calls of the loop up to a failing scan do not depend on what
    comes after it. *)
Lemma loop_trace_stops (pre rest : list (RowScan value)) (cols : list (string * value))
    (e : error) (numCols : Z) :
  loop_trace (Tx := Tx) (pre ++ (cols, Some e) :: rest) numCols
  = loop_trace (Tx := Tx) (pre ++ [(cols, Some e)]) numCols.
Proof.
  revert numCols. induction pre as [|[c [e'|]] pre IH]; intros numCols; cbn.
  - reflexivity.
  - reflexivity.
  - now rewrite IH.
Qed.

Lemma first_scan_error_stops (pre rest : list (RowScan value))
    (cols : list (string * value)) (e : error) :
  first_scan_error pre = None ->
  first_scan_error (pre ++ (cols, Some e) :: rest) = Some e.
Proof.
  induction pre as [|[c [e'|]] pre IH]; cbn; intros Hok.
  - reflexivity.
  - discriminate.
  - now apply IH.
Qed.

Lemma loop_trace_failed_counts (pre : list (RowScan value))
    (cols : list (string * value)) (e : error) (numCols : Z) :
  first_scan_error pre = None ->
  let t := loop_trace (Tx := Tx) (pre ++ [(cols, Some e)]) numCols in
  count is_next t = S (length pre)
  /\ count is_mapscan t = S (length pre)
  /\ count is_rows_err t = 0.
Proof.
  revert numCols. induction pre as [|[c [e'|]] pre IH]; intros numCols Hok.
  - now repeat split.
  - discriminate.
  - destruct (IH (Z.of_nat (size (assign c (∅ : rowmap)))) Hok) as (Hn & Hm & Hr).
    cbn in *. unfold count in *. cbn. now rewrite Hn, Hm, Hr.
Qed.

(** X4.  [SelectMaps] stops at the first row whose scan fails.  It has
    then called [Next] and [MapScan] once for that row and each row before
    it and never asks [rows.Err]; what it returns and the calls it makes
    are the same whatever rows would have followed and whatever the
    iteration would have reported. *)
Theorem SelectMaps_stops_at_failed_scan query args w1 w2 (d1 d2 : DB)
    (rows1 rows2 : Rows value) (pre rest1 rest2 : list (RowScan value))
    (cols : list (string * value)) (e : error) :
  QueryxContext query args (env w1) = (inr rows1, d1) ->
  QueryxContext query args (env w2) = (inr rows2, d2) ->
  trace w1 = trace w2 ->
  first_scan_error pre = None ->
  rows_pending rows1 = (pre ++ (cols, Some e) :: rest1)%list ->
  rows_pending rows2 = (pre ++ (cols, Some e) :: rest2)%list ->
  rows_close rows1 = rows_close rows2 ->
  (SelectMaps query args w1).1 = (SelectMaps query args w2).1
  /\ trace (SelectMaps query args w1).2 = trace (SelectMaps query args w2).2
  /\ exists t,
       SelectMaps query args w1
       = (Some (None, Combine [Some (sqlErr e query args); rows_close rows1]),
          {| env := d1; trace := (trace w1 ++ t)%list |})
       /\ count is_next t = S (length pre)
       /\ count is_mapscan t = S (length pre)
       /\ count is_rows_err t = 0.
Proof.
  intros Hq1 Hq2 Htr Hok Hp1 Hp2 Hc.
  rewrite (SelectMaps_query_ok query args w1 rows1 d1 Hq1).
  rewrite (SelectMaps_query_ok query args w2 rows2 d2 Hq2).
  unfold primary_error. rewrite Hp1, Hp2, Htr, Hc.
  rewrite !(first_scan_error_stops pre _ cols e Hok).
  rewrite (loop_trace_stops pre rest1), (loop_trace_stops pre rest2).
  split; [reflexivity|]. split; [reflexivity|].
  eexists. split; [reflexivity|].
  destruct (loop_trace_failed_counts pre cols e (-1) Hok) as (Hn & Hm & Hr).
  unfold count in *. cbn [List.filter is_next is_mapscan is_rows_err].
  rewrite !List.filter_app, !length_app. cbn.
  rewrite Hn, Hm, Hr. repeat split; lia.
Qed.

Lemma loop_trace_scanned_counts (pending : list (RowScan value)) (numCols : Z) :
  first_scan_error pending = None ->
  let t := loop_trace (Tx := Tx) pending numCols in
  count is_next t = S (length pending)
  /\ count is_mapscan t = length pending
  /\ count is_rows_err t = 1.
Proof.
  revert numCols. induction pending as [|[c [e'|]] rest IH]; intros numCols Hok.
  - now repeat split.
  - discriminate.
  - destruct (IH (Z.of_nat (size (assign c (∅ : rowmap)))) Hok) as (Hn & Hm & Hr).
    cbn in *. unfold count in *. cbn. now rewrite Hn, Hm, Hr.
Qed.

(** X5.  When every row scans, [SelectMaps] reads the cursor to its end:
    after the query it calls [Next] once more than there are rows,
    [MapScan] once per row, [rows.Err] once and [Close] once. *)
Theorem SelectMaps_reads_every_row query args w rows d :
  QueryxContext query args (env w) = (inr rows, d) ->
  first_scan_error (rows_pending rows) = None ->
  exists t,
    trace (SelectMaps query args w).2 = (trace w ++ EvQueryxContext query args :: t)%list
    /\ count is_next t = S (length (rows_pending rows))
    /\ count is_mapscan t = length (rows_pending rows)
    /\ count is_rows_err t = 1
    /\ count is_close t = 1.
Proof.
  intros Hq Hok. rewrite (SelectMaps_query_ok query args w rows d Hq). cbn [snd env trace].
  eexists. split; [reflexivity|].
  destruct (loop_trace_scanned_counts (rows_pending rows) (-1) Hok) as (Hn & Hm & Hr).
  pose proof (loop_trace_no_close (Tx := Tx) (rows_pending rows) (-1)) as Hc.
  unfold count in *. rewrite !List.filter_app, !length_app. cbn.
  rewrite Hn, Hm, Hr, Hc. repeat split; lia.
Qed.

End Cursors.

(** ** Error chains *)

Lemma Is_trans (a b c : error) : Is a b -> Is b c -> Is a c.
Proof.
  intros Hab. induction Hab as [e | msg e t _ IH | errs e t Hin _ IH]; intros Hbc.
  - exact Hbc.
  - apply Is_wrapped. now apply IH.
  - apply (Is_cause errs e); [exact Hin | now apply IH].
Qed.

(** Every cause [multierr.Errors] lists is found by [errors.Is]. *)
Lemma Is_Errors (err x : error) : In x (Errors (Some err)) -> Is err x.
Proof.
  destruct err as [s | msg e | errs]; cbn.
  - intros [<- | []]. apply Is_here.
  - intros [<- | []]. apply Is_here.
  - intros Hin. apply (Is_cause errs x); [exact Hin | apply Is_here].
Qed.

Lemma Is_Combine (a b : option error) (err x : error) :
  Combine [a; b] = Some err ->
  In x (Errors a) \/ In x (Errors b) ->
  Is err x.
Proof.
  intros Hc Hin. apply Is_Errors. rewrite <- Hc, Errors_Combine.
  apply in_or_app. exact Hin.
Qed.

Lemma Is_sqlErr {value : Type} `{Formatter value} (e : error) (query : string)
    (args : list value) :
  Is (sqlErr e query args) e.
Proof. apply Is_wrapped, Is_here. Qed.

(** ** The maps of [SelectMaps] and [GetMap] *)

Section RowMaps.

Context {value dest Tx DB : Type}.
Context `{Formatter value} `{QueryerContext value dest DB}.

Abbreviation rowmap := (gmap string value).

Implicit Types (w : World value Tx DB) (query : string) (args : list value).

Lemma lookup_map {A B : Type} (g : A -> B) (l : list A) (i : nat) :
  map g l !! i = g <$> l !! i.
Proof.
  revert i. induction l as [|a l IH]; intros [|i]; cbn; auto.
Qed.

Lemma assign_app (c1 c2 : list (string * value)) (m : rowmap) :
  assign (c1 ++ c2) m = assign c2 (assign c1 m).
Proof. unfold assign. apply fold_left_app. Qed.

Lemma assign_lookup_other (cols : list (string * value)) (m : rowmap) (k : string) :
  k ∉ cols.*1 -> assign cols m !! k = m !! k.
Proof.
  revert m. induction cols as [|[c v] cols IH]; intros m Hk; [reflexivity|].
  cbn in Hk. apply not_elem_of_cons in Hk as [Hne Hk].
  change (assign ((c, v) :: cols) m) with (assign cols (<[c:=v]> m)).
  rewrite (IH _ Hk). now apply lookup_insert_ne.
Qed.

(** X6.  Each map [SelectMaps] returns belongs to one row and starts
    empty: the [i]-th map has exactly the column names of the [i]-th row
    as its keys, whatever the columns of the other rows, and under a name
    that occurs more than once in the row it holds the value of the last
    such column. *)
Theorem SelectMaps_row_maps query args w rows d maps err :
  QueryxContext query args (env w) = (inr rows, d) ->
  (SelectMaps query args w).1 = Some (Some maps, err) ->
  length maps = length (rows_pending rows)
  /\ forall i r,
       rows_pending rows !! i = Some r ->
       exists m,
         maps !! i = Some m
         /\ dom m = list_to_set r.1.*1
         /\ (forall before k v after,
               r.1 = (before ++ (k, v) :: after)%list ->
               k ∉ after.*1 ->
               m !! k = Some v).
Proof.
  intros Hq Hrun.
  rewrite (SelectMaps_query_ok query args w rows d Hq) in Hrun. cbn [fst] in Hrun.
  destruct (primary_error rows) as [e|]; [discriminate|].
  injection Hrun as <- _.
  split; [apply length_map|].
  intros i r Hr. exists (row_map r).
  split; [rewrite lookup_map; exact (f_equal (fmap row_map) Hr)|].
  split.
  - unfold row_map. rewrite dom_assign, dom_empty_L. set_solver.
  - intros before k v after Hcols Hlast. unfold row_map. rewrite Hcols.
    rewrite assign_app.
    change (assign ((k, v) :: after) (assign before ∅))
      with (assign after (<[k:=v]> (assign before (∅ : rowmap)))).
    rewrite (assign_lookup_other _ _ _ Hlast). apply lookup_insert_eq.
Qed.

Lemma hints_loop_trace_sizes (pending : list (RowScan value)) (numCols : Z) :
  Forall (fun h => forall n, h = Some n -> (0 <= n)%Z)
    (hints (loop_trace (Tx := Tx) pending numCols)).
Proof.
  revert numCols. induction pending as [|[cols serr] rest IH]; intros numCols.
  - constructor.
  - cbn [loop_trace hints]. constructor.
    + intros n. destruct (Z.ltb_spec numCols 0); [discriminate|].
      intros [= <-]. assumption.
    + destruct serr as [e|]; [constructor | apply IH].
Qed.

Lemma hints_loop_trace_hinted (pending : list (RowScan value)) (numCols : Z) :
  (0 <= numCols)%Z ->
  Forall (fun h => h <> None) (hints (loop_trace (Tx := Tx) pending numCols)).
Proof.
  revert numCols. induction pending as [|[cols serr] rest IH]; intros numCols Hpos.
  - constructor.
  - cbn [loop_trace hints]. constructor.
    + destruct (Z.ltb_spec numCols 0); [lia | discriminate].
    + destruct serr as [e|]; [constructor | apply IH; lia].
Qed.

Lemma hints_loop_trace_scans (pending : list (RowScan value)) (numCols : Z) :
  length (hints (loop_trace (Tx := Tx) pending numCols))
  = count is_mapscan (loop_trace (Tx := Tx) pending numCols).
Proof.
  revert numCols. induction pending as [|[cols serr] rest IH]; intros numCols.
  - reflexivity.
  - cbn [loop_trace hints]. unfold count in *. cbn.
    destruct serr as [e|]; [reflexivity | now rewrite IH].
Qed.

(** X7.  On every cursor, failing scans included, [SelectMaps] allocates
    one map for each row it scans, never calls [make] with a negative
    size, and leaves out the size hint for the first map and for no
    other: if there is a row at all, the first allocation has no hint,
    and every later one has. *)
Theorem SelectMaps_sizes_never_negative query args w rows d :
  QueryxContext query args (env w) = (inr rows, d) ->
  exists t,
    trace (SelectMaps query args w).2 = (trace w ++ t)%list
    /\ length (hints t) = count is_mapscan t
    /\ (rows_pending rows <> [] -> hints t !! 0 = Some None)
    /\ (forall i n, hints t !! i = Some (Some n) -> (0 <= n)%Z)
    /\ (forall i, hints t !! i = Some None -> i = 0).
Proof.
  intros Hq. rewrite (SelectMaps_query_ok query args w rows d Hq). cbn [snd trace].
  eexists. split; [reflexivity|].
  assert (Hh : hints (EvQueryxContext (Tx := Tx) query args
                        :: loop_trace (rows_pending rows) (-1) ++ [EvRowsClose])
               = hints (loop_trace (Tx := Tx) (rows_pending rows) (-1))).
  { cbn [hints]. rewrite hints_app. cbn. apply app_nil_r. }
  rewrite Hh. split; [|split; [|split]].
  - rewrite hints_loop_trace_scans. unfold count. cbn.
    rewrite List.filter_app, length_app. cbn. lia.
  - intros Hne. now rewrite hints_loop_trace_head.
  - intros i n Hi.
    pose proof (hints_loop_trace_sizes (rows_pending rows) (-1)) as Hall.
    rewrite Forall_lookup in Hall. exact (Hall i _ Hi n eq_refl).
  - intros i Hi. destruct i as [|i]; [reflexivity|]. exfalso.
    destruct (rows_pending rows) as [|[cols [e|]] rest]; [discriminate Hi | discriminate Hi |].
    change (hints (loop_trace (Tx := Tx) rest (Z.of_nat (size (assign cols (∅ : rowmap)))))
              !! i = Some None) in Hi.
    pose proof (hints_loop_trace_hinted rest
                  (Z.of_nat (size (assign cols (∅ : rowmap)))) ltac:(lia)) as Hall.
    rewrite Forall_lookup in Hall. exact (Hall i _ Hi eq_refl).
Qed.

(** X8.  [GetMap] returns a map exactly when it returns no error, and
    then the map is the scanned row.  After the query it scans the row
    once if the query left no error in it, and not at all if it did. *)
Theorem GetMap_map_xor_error query args w :
  let row := (QueryRowxContext query args (env w)).1 in
  exists m err t,
    (GetMap query args w).1 = (m, err)
    /\ trace (GetMap query args w).2
       = (trace w ++ EvQueryRowxContext query args :: t)%list
    /\ (m = None <-> err <> None)
    /\ (err = None -> m = Some (row_map (row_scan row)))
    /\ t = match row_err row with Some _ => [] | None => [EvRowMapScan] end.
Proof.
  unfold GetMap, bind, call, ret, row_MapScan, row_map.
  destruct (QueryRowxContext query args (env w)) as [[qerr [cols serr]] d].
  destruct qerr as [e|]; [|destruct serr as [e|]]; cbn;
    rewrite <- ?app_assoc; cbn; eexists _, _, _;
    (split; [reflexivity|]); (split; [reflexivity|]).
  - split; [split; [discriminate | reflexivity]|]. split; [discriminate | reflexivity].
  - split; [split; [discriminate | reflexivity]|]. split; [discriminate | reflexivity].
  - split; [split; [discriminate | intros Hne; now destruct Hne]|].
    split; reflexivity.
Qed.

(** X9.  After a successful query, no error is lost in what [SelectMaps]
    returns: the error of the failing scan or of the iteration is found
    in it by [errors.Is], under its [sqlErr] wrapper, and so is every
    cause of the error of [Close], whether or not the other failed
    too. *)
Theorem SelectMaps_keeps_causes query args w rows d :
  QueryxContext query args (env w) = (inr rows, d) ->
  exists ret_ oerr,
    (SelectMaps query args w).1 = Some (ret_, oerr)
    /\ (forall e, primary_error rows = Some e ->
          exists err, oerr = Some err
                      /\ Is err (sqlErr e query args) /\ Is err e)
    /\ (forall c x, rows_close rows = Some c -> In x (Errors (Some c)) ->
          exists err, oerr = Some err /\ Is err x).
Proof.
  intros Hq. rewrite (SelectMaps_query_ok query args w rows d Hq). cbn [fst].
  eexists _, _. split; [reflexivity|].
  split.
  - intros e He. rewrite He. cbn [fmap option_fmap option_map].
    destruct (Combine [Some (sqlErr e query args); rows_close rows]) as [err|] eqn:Hc.
    + exists err. split; [reflexivity|].
      assert (Hw : Is err (sqlErr e query args)).
      { apply (Is_Combine _ _ _ _ Hc). left. cbn. now left. }
      split; [exact Hw | exact (Is_trans _ _ _ Hw (Is_sqlErr e query args))].
    + apply Combine_is_nil in Hc. destruct Hc; discriminate.
  - intros c x Hclose Hx. rewrite Hclose.
    destruct (Combine [(fun e => sqlErr e query args) <$> primary_error rows; Some c])
      as [err|] eqn:Hc.
    + exists err. split; [reflexivity|].
      apply (Is_Combine _ _ _ _ Hc). now right.
    + apply Combine_is_nil in Hc. destruct Hc; discriminate.
Qed.

End RowMaps.

(** ** The example program *)

Section ExampleProgram.

Context {value result Tx DB : Type} `{Formatter value}.
Context (str : string -> value).

Implicit Types (w : World value Tx DB) (login newName : string) (e : error).

(** [updateUserTx], call by call. *)
Lemma updateUserTx_run `{ExtContext value result user DB} login newName w :
  updateUserTx (Tx := Tx) str login newName w
  = (let '((u1, e1), d1) := GetContext zero_user select_user [str login] (env w) in
     match e1 with
     | Some e =>
       ((zero_user, Some (sqlErr e select_user [str login])),
        {| env := d1;
           trace := (trace w ++ [EvGetContext select_user [str login]])%list |})
     | None =>
       let '((u2, e2), d2) :=
         GetContext u1 update_user [str newName; str login] d1 in
       ((match e2 with Some _ => zero_user | None => u2 end,
         (fun e => sqlErr e update_user [str newName; str login]) <$> e2),
        {| env := d2;
           trace := (trace w ++ [EvGetContext select_user [str login];
                                 EvGetContext update_user [str newName; str login]])%list |})
     end).
Proof.
  unfold updateUserTx, Get, bind, call, ret.
  destruct (GetContext zero_user select_user [str login] (env w)) as [[u1 [e|]] d1];
    cbn; [reflexivity|].
  destruct (GetContext u1 update_user [str newName; str login] d1) as [[u2 [e|]] d2];
    cbn; rewrite <- app_assoc; reflexivity.
Qed.

(** X10.  When the SELECT of [updateUserTx] fails, the UPDATE is never
    issued: the failed query is the only call, the environment is as it
    left it, and the result is the zero user, whatever the driver had
    written into the destination, with the error wrapped by [sqlErr]. *)
Theorem updateUserTx_stops_after_failed_select `{ExtContext value result user DB}
    login newName w (u1 : user) e (d1 : DB) :
  GetContext zero_user select_user [str login] (env w) = ((u1, Some e), d1) ->
  exists t,
    updateUserTx (Tx := Tx) str login newName w
    = ((zero_user, Some (sqlErr e select_user [str login])),
       {| env := d1; trace := (trace w ++ t)%list |})
    /\ t = [EvGetContext select_user [str login]]
    /\ count is_get t = 1.
Proof.
  intros Hget. rewrite updateUserTx_run, Hget.
  eexists. split; [reflexivity|]. split; reflexivity.
Qed.

(** X11.  [updateUserTx] returns the zero user whenever it returns an
    error.  It returns no error only if both queries succeeded, the
    UPDATE having been issued second, with the new name and the login as
    its arguments in this order and the user the SELECT scanned as its
    destination; the user returned is then the one the UPDATE scanned. *)
Theorem updateUserTx_user_or_error `{ExtContext value result user DB} login newName w :
  exists u err t,
    updateUserTx (Tx := Tx) str login newName w
    = ((u, err), {| env := env (updateUserTx (Tx := Tx) str login newName w).2;
                    trace := (trace w ++ t)%list |})
    /\ (err <> None -> u = zero_user)
    /\ (err = None ->
        exists u1 d1 d2,
          GetContext zero_user select_user [str login] (env w) = ((u1, None), d1)
          /\ GetContext u1 update_user [str newName; str login] d1 = ((u, None), d2)
          /\ t = [EvGetContext select_user [str login];
                  EvGetContext update_user [str newName; str login]]).
Proof.
  rewrite updateUserTx_run.
  destruct (GetContext zero_user select_user [str login] (env w)) as [[u1 [e|]] d1] eqn:H1.
  - eexists _, _, _. split; [reflexivity|]. split; [reflexivity | discriminate].
  - destruct (GetContext u1 update_user [str newName; str login] d1)
      as [[u2 [e|]] d2] eqn:H2.
    + eexists _, _, _. split; [reflexivity|]. split; [reflexivity | discriminate].
    + eexists _, _, _. split; [reflexivity|]. split; [intros Hne; now destruct Hne|].
      intros _. exists u1, d1, d2. now repeat split.
Qed.

Context `{TxRunner Tx DB} (asExt : Tx -> ExtContext value result user DB).

(** [updateUser], by the outcome of opening the transaction and of the
    closure. *)
Lemma updateUser_not_begun login newName w e (d1 : DB) :
  BeginTxx opts (env w) = (inl e, d1) ->
  updateUser str asExt login newName w
  = ((zero_user, Some (Errorf_w "begin transaction: " e)),
     {| env := d1; trace := (trace w ++ [EvBeginTxx opts])%list |}).
Proof.
  intros Hbegin. unfold updateUser, RunTx, bind, call, ret. cbn.
  unfold beside. cbn. now rewrite Hbegin.
Qed.

Lemma updateUser_begun login newName w (tx : Tx) (d1 : DB) :
  BeginTxx opts (env w) = (inr tx, d1) ->
  updateUser str asExt login newName w
  = (let '((u, err), w1) :=
       updateUserTx (Tx := Tx) (H0 := asExt tx) str login newName
         {| env := d1; trace := [] |} in
     match err with
     | Some e =>
       ((u, Combine [Some e; (Rollback tx (env w1)).1]),
        {| env := (Rollback tx (env w1)).2;
           trace := (trace w ++ [EvBeginTxx opts; EvTxFunc tx; EvRollback tx])%list |})
     | None =>
       ((u, (Commit tx (env w1)).1),
        {| env := (Commit tx (env w1)).2;
           trace := (trace w ++ [EvBeginTxx opts; EvTxFunc tx; EvCommit tx])%list |})
     end).
Proof.
  intros Hbegin. unfold updateUser, RunTx, bind, call, ret. cbn.
  unfold beside at 1. cbn. rewrite Hbegin. cbn.
  unfold updateUser_work. cbn.
  destruct (updateUserTx str login newName {| env := d1; trace := [] |})
    as [[u [e|]] w1]; cbn; unfold beside; cbn.
  - destruct (Rollback tx (env w1)) as [rerr d3]; cbn. now rewrite <- !app_assoc.
  - destruct (Commit tx (env w1)) as [cerr d3]; cbn. now rewrite <- !app_assoc.
Qed.

(** X12.  When both queries of the unit of work succeed and the commit
    is rejected, [updateUser] returns the commit error together with the
    user the UPDATE scanned, not the zero user: the user it returns is
    meaningful only if the error is nil. *)
Theorem updateUser_commit_failure login newName w (tx : Tx) (d1 d3 : DB)
    (u : user) (c : error) :
  let work :=
    updateUserTx (Tx := Tx) (H0 := asExt tx) str login newName
      {| env := d1; trace := [] |} in
  BeginTxx opts (env w) = (inr tx, d1) ->
  work.1 = (u, None) ->
  Commit tx (env work.2) = (Some c, d3) ->
  updateUser str asExt login newName w
  = ((u, Some c),
     {| env := d3;
        trace := (trace w ++ [EvBeginTxx opts; EvTxFunc tx; EvCommit tx])%list |}).
Proof.
  intros work Hbegin Hwork Hcommit.
  rewrite (updateUser_begun login newName w tx d1 Hbegin). fold work.
  destruct work as [[u' err] w1]. cbn in Hwork, Hcommit.
  injection Hwork as -> ->. now rewrite Hcommit.
Qed.

(** X13.  When the SELECT inside the transaction fails, [updateUser]
    rolls the transaction back without issuing the UPDATE or a commit and
    returns the zero user with a non-nil error, in which [errors.Is]
    finds the driver's error under the [sqlErr] and [multierr] layers,
    whether or not the rollback fails too. *)
Theorem updateUser_failed_select login newName w (tx : Tx) (d1 d2 : DB)
    (u1 : user) e :
  BeginTxx opts (env w) = (inr tx, d1) ->
  GetContext (QueryerContext := @ext_queryer _ _ _ _ (asExt tx))
    zero_user select_user [str login] d1
  = ((u1, Some e), d2) ->
  exists err,
    updateUser str asExt login newName w
    = ((zero_user, Some err),
       {| env := (Rollback tx d2).2;
          trace := (trace w ++ [EvBeginTxx opts; EvTxFunc tx; EvRollback tx])%list |})
    /\ Is err e
    /\ Is err (sqlErr e select_user [str login]).
Proof.
  intros Hbegin Hget.
  rewrite (updateUser_begun login newName w tx d1 Hbegin).
  rewrite updateUserTx_run. cbn [env trace].
  rewrite Hget. cbn [env].
  destruct (Combine [Some (sqlErr e select_user [str login]); (Rollback tx d2).1])
    as [err|] eqn:Hc.
  - exists err. split; [reflexivity|].
    assert (Hw : Is err (sqlErr e select_user [str login])).
    { apply (Is_Combine _ _ _ _ Hc). left. cbn. now left. }
    split; [exact (Is_trans _ _ _ Hw (Is_sqlErr e _ _)) | exact Hw].
  - apply Combine_is_nil in Hc. destruct Hc; discriminate.
Qed.

(** X14.  [updateUser] returns nil only after a commit, as its last
    call, and a user other than the zero user only if the transaction was
    opened and the unit of work returned that user without an error. *)
Theorem updateUser_outcomes login newName w :
  exists u err t,
    (updateUser str asExt login newName w).1 = (u, err)
    /\ trace (updateUser str asExt login newName w).2 = (trace w ++ t)%list
    /\ (err = None ->
        exists tx, (BeginTxx opts (env w)).1 = inr tx /\ last t = Some (EvCommit tx))
    /\ (u <> zero_user ->
        exists tx d1,
          BeginTxx opts (env w) = (inr tx, d1)
          /\ (updateUserTx (Tx := Tx) (H0 := asExt tx) str login newName
                {| env := d1; trace := [] |}).1 = (u, None)).
Proof.
  destruct (BeginTxx opts (env w)) as [[e|tx] d1] eqn:Hbegin.
  - rewrite (updateUser_not_begun login newName w e d1 Hbegin). cbn.
    eexists _, _, _. split; [reflexivity|]. split; [reflexivity|].
    split; [discriminate | intros Hne; now destruct Hne].
  - rewrite (updateUser_begun login newName w tx d1 Hbegin).
    pose proof (updateUserTx_user_or_error (H0 := asExt tx) login newName
                  {| env := d1; trace := [] |}) as (u & err & t & Hrun & Hzero & _).
    rewrite Hrun. destruct err as [e|]; cbn [fst snd trace env].
    + eexists _, _, _. split; [reflexivity|]. split; [reflexivity|].
      split.
      * intros Hnil. apply Combine_is_nil in Hnil. destruct Hnil; discriminate.
      * intros Hne. destruct Hne. now apply Hzero.
    + eexists _, _, _. split; [reflexivity|]. split; [reflexivity|].
      split; [intros _; now exists tx|].
      intros _. exists tx, d1. split; [reflexivity | now rewrite Hrun].
Qed.

End ExampleProgram.

(** ** The logger *)

Section Logger.

Context {value : Type} `{Formatter value}.

Implicit Types (msg line : string) (order : list (string * value))
  (data : gmap string value).

Lemma string_length_app (a b : string) :
  String.length (a +:+ b) = String.length a + String.length b.
Proof.
  induction a as [|c a IH]; [reflexivity|].
  change (S (String.length (a +:+ b)) = S (String.length a + String.length b)).
  now rewrite IH.
Qed.

Lemma string_app_assoc (a b c : string) : (a +:+ b) +:+ c = a +:+ (b +:+ c).
Proof.
  induction a as [|x a IH]; [reflexivity|].
  change (String x ((a +:+ b) +:+ c) = String x (a +:+ (b +:+ c))).
  now rewrite IH.
Qed.

Lemma Log_line_length msg order :
  String.length (Log_line msg order)
  = String.length msg + sum_list_with (fun kv => String.length (Log_field kv)) order.
Proof.
  revert msg. induction order as [|kv order IH]; intros msg.
  - cbn. lia.
  - change (Log_line msg (kv :: order)) with (Log_line (msg +:+ Log_field kv) order).
    rewrite IH, string_length_app. cbn [sum_list_with]. lia.
Qed.

Lemma Log_line_prefix msg order : exists rest, Log_line msg order = msg +:+ rest.
Proof.
  revert msg. induction order as [|kv order IH]; intros msg.
  - exists "". cbn. induction msg as [|c msg IHm]; [reflexivity|].
    change (String c msg = String c (msg +:+ "")). now rewrite <- IHm.
  - change (Log_line msg (kv :: order)) with (Log_line (msg +:+ Log_field kv) order).
    destruct (IH (msg +:+ Log_field kv)) as [rest Hrest].
    exists (Log_field kv +:+ rest). now rewrite Hrest, string_app_assoc.
Qed.

(** X15.  With no data the logger prints the message and nothing else,
    and with a single field the message followed by a space, the key, an
    equals sign and the value: for these maps the printed text does not
    depend on the iteration order. *)
Theorem Log_lines_few_fields msg line :
  (Log_lines msg ∅ line <-> line = msg)
  /\ (forall k v,
        Log_lines msg {[k := v]} line
        <-> line = msg +:+ (" " +:+ k +:+ "=" +:+ fmtValue v)).
Proof.
  split.
  - unfold Log_lines. rewrite map_to_list_empty. split.
    + intros (order & Hperm & ->). apply Permutation_nil_r in Hperm. now subst.
    + intros ->. now exists [].
  - intros k v. unfold Log_lines. rewrite map_to_list_singleton. split.
    + intros (order & Hperm & ->). apply Permutation_singleton_r in Hperm. now subst.
    + intros ->. now exists [(k, v)].
Qed.

(** X16.  Whatever order the fields are visited in, the printed text
    begins with the message and has the same length: the length of the
    message plus, for every field, the length of its key and of its
    printed value and two for the space and the equals sign. *)
Theorem Log_lines_same_length msg data line1 line2 :
  Log_lines msg data line1 ->
  Log_lines msg data line2 ->
  String.length line1 = String.length line2
  /\ String.length line1
     = String.length msg
       + sum_list_with (fun kv => 2 + String.length kv.1 + String.length (fmtValue kv.2))
           (map_to_list data)
  /\ exists rest, line1 = msg +:+ rest.
Proof.
  intros (o1 & Hp1 & ->) (o2 & Hp2 & ->).
  rewrite !Log_line_length, Hp1, Hp2.
  split; [reflexivity|]. split; [|apply Log_line_prefix].
  f_equal. clear Hp1 Hp2. induction (map_to_list data) as [|kv l IH]; [reflexivity|].
  cbn. rewrite IH. f_equal. unfold Log_field.
  rewrite !string_length_app. cbn. lia.
Qed.

End Logger.

(** ** The extra properties on the scripted drivers *)

Lemma SelectMaps_all_or_nothing_witness :
  QueryxContext select_users [] (env (fresh close_fails))
  = (inr (cursor [] None (Some (errorString "close failed"))), serve close_fails)
  /\ exists ret_ err,
       (SelectMaps select_users [] (fresh close_fails)).1 = Some (ret_, err)
       /\ ret_ = Some []
       /\ (ret_ <> None /\ err <> None).
Proof.
  split; [reflexivity|].
  pose proof (SelectMaps_all_or_nothing (dest := list string) select_users []
                (fresh close_fails)
                (cursor [] None (Some (errorString "close failed")))
                (serve close_fails)) as Hthm.
  destruct (Hthm eq_refl) as (ret_ & err & Hrun & _ & Hall & Hboth).
  exists ret_, err. split; [exact Hrun|]. split; [exact (Hall eq_refl)|].
  apply Hboth. split; [reflexivity | discriminate].
Defined.

Lemma SelectMaps_stops_at_failed_scan_witness :
  let s1 := with_query (inr (second_row_fails [] None)) quiet in
  let s2 :=
    with_query
      (inr (second_row_fails [([("id", "3")], None)]
              (Some (errorString "connection reset")))) quiet in
  QueryxContext select_users [] (env (fresh s1))
  = (inr (second_row_fails [] None), serve s1)
  /\ QueryxContext select_users [] (env (fresh s2))
     = (inr (second_row_fails [([("id", "3")], None)]
               (Some (errorString "connection reset"))), serve s2)
  /\ (SelectMaps select_users [] (fresh s1)).1
     = (SelectMaps select_users [] (fresh s2)).1
  /\ trace (SelectMaps select_users [] (fresh s1)).2
     = trace (SelectMaps select_users [] (fresh s2)).2.
Proof.
  intros s1 s2. split; [reflexivity|]. split; [reflexivity|].
  pose proof (SelectMaps_stops_at_failed_scan (dest := list string) select_users []
                (fresh s1) (fresh s2) (serve s1) (serve s2)
                (second_row_fails [] None)
                (second_row_fails [([("id", "3")], None)]
                   (Some (errorString "connection reset")))
                [([("id", "1")], None)] [] [([("id", "3")], None)]
                [("id", "2")] (errorString "bad column")) as Hthm.
  destruct (Hthm eq_refl eq_refl eq_refl eq_refl eq_refl eq_refl eq_refl)
    as (Hres & Htrace & _).
  split; [exact Hres | exact Htrace].
Defined.

Lemma SelectMaps_reads_every_row_witness :
  QueryxContext select_users [] (env (fresh joined))
  = (inr (cursor two_ids None None), serve joined)
  /\ first_scan_error two_ids = None
  /\ exists t,
       trace (SelectMaps select_users [] (fresh joined)).2
       = ([] ++ EvQueryxContext select_users [] :: t)%list
       /\ count is_next t = 3
       /\ count is_mapscan t = 2.
Proof.
  split; [reflexivity|]. split; [reflexivity|].
  pose proof (SelectMaps_reads_every_row (dest := list string) select_users []
                (fresh joined) (cursor two_ids None None) (serve joined)) as Hthm.
  destruct (Hthm eq_refl eq_refl) as (t & Htrace & Hn & Hm & _).
  exists t. split; [exact Htrace|]. split; [exact Hn | exact Hm].
Defined.

Lemma SelectMaps_row_maps_witness :
  QueryxContext select_users [] (env (fresh joined))
  = (inr (cursor two_ids None None), serve joined)
  /\ (SelectMaps select_users [] (fresh joined)).1
     = Some (Some (map row_map two_ids), None)
  /\ exists m, map row_map two_ids !! 1 = Some m /\ m !! "id" = Some "8".
Proof.
  split; [reflexivity|]. split; [vm_compute; reflexivity|].
  pose proof (SelectMaps_row_maps (dest := list string) select_users []
                (fresh joined) (cursor two_ids None None) (serve joined)
                (map row_map two_ids) None) as Hthm.
  destruct (Hthm eq_refl ltac:(vm_compute; reflexivity)) as (_ & Hrows).
  destruct (Hrows 1 ([("id", "2"); ("id", "8")], None) eq_refl)
    as (m & Hm & _ & Hlast).
  exists m. split; [exact Hm|].
  apply (Hlast [("id", "2")] "id" "8" []); [reflexivity|].
  cbn. apply not_elem_of_nil.
Defined.

Lemma SelectMaps_sizes_never_negative_witness :
  QueryxContext select_users [] (env (fresh joined))
  = (inr (cursor two_ids None None), serve joined)
  /\ exists t,
       trace (SelectMaps select_users [] (fresh joined)).2 = ([] ++ t)%list
       /\ length (hints t) = count is_mapscan t
       /\ hints t !! 0 = Some None
       /\ hints t !! 1 <> Some None.
Proof.
  split; [reflexivity|].
  pose proof (SelectMaps_sizes_never_negative (dest := list string) select_users []
                (fresh joined) (cursor two_ids None None) (serve joined)) as Hthm.
  destruct (Hthm eq_refl) as (t & Htrace & Hlen & Hfirst & _ & Honly).
  exists t. split; [exact Htrace|]. split; [exact Hlen|].
  split; [apply Hfirst; discriminate|].
  intros Hsecond. specialize (Honly 1 Hsecond). discriminate Honly.
Defined.

Lemma SelectMaps_keeps_causes_witness :
  QueryxContext select_users [] (env (fresh torn))
  = (inr (cursor [([], Some (errorString "bad column"))] None
            (Some (errorString "close failed"))), serve torn)
  /\ exists ret_ err,
       (SelectMaps select_users [] (fresh torn)).1 = Some (ret_, Some err)
       /\ Is err (errorString "bad column")
       /\ Is err (errorString "close failed").
Proof.
  split; [reflexivity|].
  pose proof (SelectMaps_keeps_causes (dest := list string) select_users []
                (fresh torn)
                (cursor [([], Some (errorString "bad column"))] None
                   (Some (errorString "close failed")))
                (serve torn)) as Hthm.
  destruct (Hthm eq_refl) as (ret_ & oerr & Hrun & Hscan & Hclose).
  destruct (Hscan (errorString "bad column") eq_refl) as (err & -> & _ & Hbad).
  destruct (Hclose (errorString "close failed") (errorString "close failed")
              eq_refl (or_introl eq_refl)) as (err' & Heq & Hcl).
  injection Heq as <-.
  exists ret_, err. split; [exact Hrun|]. split; [exact Hbad | exact Hcl].
Defined.

Lemma updateUserTx_stops_after_failed_select_witness :
  let w : World string nat TxScript := {| env := no_such_user; trace := [] |} in
  (tx_next_get zero_user no_such_user).1
  = (zero_user, Some (errorString "sql: no rows in result set"))
  /\ exists t,
       (updateUserTx (H0 := tx_ext 1) (fun s => s) "sidorov" "Sergeev" w).1
       = (zero_user,
          Some (sqlErr (errorString "sql: no rows in result set") select_user ["sidorov"]))
       /\ trace (updateUserTx (H0 := tx_ext 1) (fun s => s) "sidorov" "Sergeev" w).2
          = ([] ++ t)%list
       /\ count is_get t = 1.
Proof.
  intros w. split; [reflexivity|].
  pose proof (updateUserTx_stops_after_failed_select (H0 := tx_ext 1) (fun s => s)
                "sidorov" "Sergeev" w zero_user
                (errorString "sql: no rows in result set")
                (tx_next_get zero_user no_such_user).2) as Hthm.
  destruct (Hthm eq_refl) as (t & Hrun & _ & Hcount).
  exists t. rewrite Hrun. split; [reflexivity|]. split; [reflexivity | exact Hcount].
Defined.

Lemma updateUser_commit_failure_witness :
  let w : World string nat TxScript := {| env := commit_rejected; trace := [] |} in
  BeginTxx opts (env w) = (inr 1, commit_rejected)
  /\ (updateUserTx (Tx := nat) (H0 := tx_ext 1) (fun s => s) "ivanov" "Sergeev"
        {| env := commit_rejected; trace := [] |}).1 = (sergeev, None)
  /\ (updateUser (fun s => s) tx_ext "ivanov" "Sergeev" w).1
     = (sergeev, Some (errorString "serialization failure")).
Proof.
  intros w. split; [reflexivity|]. split; [reflexivity|].
  pose proof (updateUser_commit_failure (fun s => s) tx_ext "ivanov" "Sergeev" w 1
                commit_rejected
                (Commit 1 (env (updateUserTx (Tx := nat) (H0 := tx_ext 1) (fun s => s)
                                  "ivanov" "Sergeev"
                                  {| env := commit_rejected; trace := [] |}).2)).2
                sergeev (errorString "serialization failure")) as Hthm.
  rewrite (Hthm eq_refl eq_refl eq_refl). reflexivity.
Defined.

Lemma updateUser_failed_select_witness :
  let w : World string nat TxScript := {| env := no_such_user; trace := [] |} in
  BeginTxx opts (env w) = (inr 1, no_such_user)
  /\ exists err,
       (updateUser (fun s => s) tx_ext "sidorov" "Sergeev" w).1 = (zero_user, Some err)
       /\ Is err (errorString "sql: no rows in result set")
       /\ count is_rollback (trace (updateUser (fun s => s) tx_ext "sidorov" "Sergeev" w).2)
          = 1.
Proof.
  intros w. split; [reflexivity|].
  pose proof (updateUser_failed_select (fun s => s) tx_ext "sidorov" "Sergeev" w 1
                no_such_user (tx_next_get zero_user no_such_user).2 zero_user
                (errorString "sql: no rows in result set")) as Hthm.
  destruct (Hthm eq_refl eq_refl) as (err & Hrun & His & _).
  exists err. rewrite Hrun. split; [reflexivity|]. split; [exact His | reflexivity].
Defined.

Lemma Log_lines_same_length_witness :
  let data : gmap string string := {[ "sql" := "select 1"; "time" := "2ms" ]} in
  Log_lines "Query" data (Log_line "Query" (map_to_list data))
  /\ Log_lines "Query" data (Log_line "Query" (reverse (map_to_list data)))
  /\ String.length (Log_line "Query" (map_to_list data))
     = String.length (Log_line "Query" (reverse (map_to_list data))).
Proof.
  intros data.
  assert (H1 : Log_lines "Query" data (Log_line "Query" (map_to_list data)))
    by (exists (map_to_list data); split; reflexivity).
  assert (H2 : Log_lines "Query" data (Log_line "Query" (reverse (map_to_list data))))
    by (exists (reverse (map_to_list data)); split;
        [apply reverse_Permutation | reflexivity]).
  split; [exact H1|]. split; [exact H2|].
  exact (proj1 (Log_lines_same_length "Query" data _ _ H1 H2)).
Defined.
